(** * The session/profile store of [src/store/authStore.ts]

    The store is a zustand object: six data fields and seven asynchronous
    actions that call the identity provider and the [profiles] table and
    write partial updates with [set].  The actions are embedded as programs
    of a small resumption monad [Prog] whose nodes are the store reads, the
    store writes and the awaited remote calls of the source.  Two
    interpreters give them meaning: [run] executes one program to completion
    against an arbitrary provider, and [step] interleaves several programs
    that are suspended at their awaits.

    The team page of [src/components/TeamPage.tsx] reads the store; its
    loading of members and activity, its header numbers, its search and its
    formatting are embedded in [Module TeamPage]. *)

From Stdlib Require Import Ascii String ZArith Lia.
From stdpp Require Import base strings list gmap pretty.

Local Open Scope string_scope.

(** ** Data *)

(** The provider's [User]; only the fields the store reads. *)
Record User := {
  user_id : string;
  user_email : option string;
  email_confirmed_at : option string;
  user_metadata_name : option string;
}.

(** The provider's [Session]; its [user] is not optional. *)
Record Session := {
  session_user : User;
  access_token : string;
}.

Record Profile := {
  profile_id : string;
  profile_email : string;
  profile_name : string;
  avatar_url : option string;
  created_at : string;
  updated_at : string;
}.

(** [Partial<Profile>], the argument of [updateProfile]. *)
Record ProfileUpdates := {
  upd_email : option string;
  upd_name : option string;
  upd_avatar_url : option string;
}.

(** The data fields of [AuthState]. *)
Record AuthState := {
  user : option User;
  profile : option Profile;
  session : option Session;
  isLoading : bool;
  isInitialized : bool;
  error : option string;
}.

(** The object literal the store is created with. *)
Definition initial_state : AuthState :=
  {| user := None; profile := None; session := None;
     isLoading := false; isInitialized := false; error := None |}.

(** A [Partial<AuthState>]: [None] is an absent key, [Some v] a key that is
    present with value [v] (which may itself be [null]). *)
Record Patch := {
  set_user : option (option User);
  set_profile : option (option Profile);
  set_session : option (option Session);
  set_isLoading : option bool;
  set_isInitialized : option bool;
  set_error : option (option string);
}.

(** The empty object literal. *)
Definition no_keys : Patch :=
  {| set_user := None; set_profile := None; set_session := None;
     set_isLoading := None; set_isInitialized := None; set_error := None |}.

Definition with_user (v : option User) (p : Patch) : Patch :=
  {| set_user := Some v; set_profile := set_profile p;
     set_session := set_session p; set_isLoading := set_isLoading p;
     set_isInitialized := set_isInitialized p; set_error := set_error p |}.

Definition with_profile (v : option Profile) (p : Patch) : Patch :=
  {| set_user := set_user p; set_profile := Some v;
     set_session := set_session p; set_isLoading := set_isLoading p;
     set_isInitialized := set_isInitialized p; set_error := set_error p |}.

Definition with_session (v : option Session) (p : Patch) : Patch :=
  {| set_user := set_user p; set_profile := set_profile p;
     set_session := Some v; set_isLoading := set_isLoading p;
     set_isInitialized := set_isInitialized p; set_error := set_error p |}.

Definition with_isLoading (v : bool) (p : Patch) : Patch :=
  {| set_user := set_user p; set_profile := set_profile p;
     set_session := set_session p; set_isLoading := Some v;
     set_isInitialized := set_isInitialized p; set_error := set_error p |}.

Definition with_isInitialized (v : bool) (p : Patch) : Patch :=
  {| set_user := set_user p; set_profile := set_profile p;
     set_session := set_session p; set_isLoading := set_isLoading p;
     set_isInitialized := Some v; set_error := set_error p |}.

Definition with_error (v : option string) (p : Patch) : Patch :=
  {| set_user := set_user p; set_profile := set_profile p;
     set_session := set_session p; set_isLoading := set_isLoading p;
     set_isInitialized := set_isInitialized p; set_error := Some v |}.

(** zustand's [set(partial)]: a shallow merge of the partial into the state. *)
Definition merge (s : AuthState) (p : Patch) : AuthState :=
  {| user := default (user s) (set_user p);
     profile := default (profile s) (set_profile p);
     session := default (session s) (set_session p);
     isLoading := default (isLoading s) (set_isLoading p);
     isInitialized := default (isInitialized s) (set_isInitialized p);
     error := default (error s) (set_error p) |}.

(** An error object of the provider or of the repository.  [message] is a
    string in both of their types; [code] is the repository's error code. *)
Record JsError := {
  message : string;
  code : option string;
}.

(** The [{ data, error }] object every remote call resolves to. *)
Record Response (D : Type) := {
  data : D;
  resp_error : option JsError;
}.
Arguments data {D} _.
Arguments resp_error {D} _.

(** [data] of the sign-in and sign-up calls. *)
Record AuthData := {
  data_user : option User;
  data_session : option Session;
}.

(** The remote calls the store awaits. *)
Inductive Call :=
  | getSession
  | signInWithPassword (email password : string)
  | signUp (email password name : string)
  | signOut
  | profiles_select (id : string)
  | profiles_insert (id email name : string)
  | profiles_update (updates : ProfileUpdates) (id : string).

Definition resp (c : Call) : Type :=
  match c with
  | getSession => Response (option Session)
  | signInWithPassword _ _ | signUp _ _ _ => Response AuthData
  | signOut => Response unit
  | profiles_select _ | profiles_insert _ _ _ | profiles_update _ _ =>
      Response (option Profile)
  end.

(** How a promise settles. *)
Inductive Settled (A : Type) :=
  | Fulfilled (a : A)
  | Rejected (e : JsError).
Arguments Fulfilled {A} _.
Arguments Rejected {A} _.

(** ** Programs *)

(** The body of an async function: it returns, throws, reads the store
    ([get()]), writes it ([set(partial)]), suspends at a remote call until
    the call settles, registers the identity-change listener, or logs. *)
Inductive Prog (A : Type) : Type :=
  | Ret (a : A)
  | Throw (e : JsError)
  | Get (k : AuthState → Prog A)
  | Put (p : Patch) (k : Prog A)
  | Await (c : Call) (k : Settled (resp c) → Prog A)
  | Subscribe (k : Prog A)
  | Log (label : string) (k : Prog A).
Arguments Ret {A} _.
Arguments Throw {A} _.
Arguments Get {A} _.
Arguments Put {A} _ _.
Arguments Await {A} _ _.
Arguments Subscribe {A} _.
Arguments Log {A} _ _.

Fixpoint bind {A B} (p : Prog A) (f : A → Prog B) : Prog B :=
  match p with
  | Ret a => f a
  | Throw e => Throw e
  | Get k => Get (λ s, bind (k s) f)
  | Put q k => Put q (bind k f)
  | Await c k => Await c (λ r, bind (k r) f)
  | Subscribe k => Subscribe (bind k f)
  | Log l k => Log l (bind k f)
  end.

#[global] Instance prog_ret : MRet Prog := @Ret.
#[global] Instance prog_bind : MBind Prog := λ A B f p, bind p f.

(** [try { p } catch (error) { h error }]. *)
Fixpoint try_catch {A} (p : Prog A) (h : JsError → Prog A) : Prog A :=
  match p with
  | Ret a => Ret a
  | Throw e => h e
  | Get k => Get (λ s, try_catch (k s) h)
  | Put q k => Put q (try_catch k h)
  | Await c k => Await c (λ r, try_catch (k r) h)
  | Subscribe k => Subscribe (try_catch k h)
  | Log l k => Log l (try_catch k h)
  end.

Definition get : Prog AuthState := Get Ret.
Definition set (p : Patch) : Prog unit := Put p (Ret tt).
Definition console (label : string) : Prog unit := Log label (Ret tt).
Definition onAuthStateChange : Prog unit := Subscribe (Ret tt).

(** [await c]: a rejected promise throws at the await. *)
Definition await (c : Call) : Prog (resp c) :=
  Await c (λ r, match r with Fulfilled a => Ret a | Rejected e => Throw e end).

(** ** JavaScript expressions used by the actions *)

(** [s || d] on strings: the empty string is falsy. *)
Definition or_else (s d : string) : string :=
  match s with "" => d | _ => s end.

(** Truthiness of an optional string. *)
Definition truthy (o : option string) : bool :=
  match o with Some (String _ _) => true | _ => false end.

(** [hay.includes(needle)]. *)
Fixpoint includes (needle hay : string) : bool :=
  String.prefix needle hay ||
  match hay with
  | "" => false
  | String _ rest => includes needle rest
  end.

(** [s.split('@')[0]]: the part of [s] before the first ['@']. *)
Fixpoint before_at (s : string) : string :=
  match s with
  | "" => ""
  | String c rest => if Ascii.eqb c "@"%char then "" else String c (before_at rest)
  end.

(** [user.user_metadata?.name || user.email?.split('@')[0] || 'User']. *)
Definition seed_name (u : User) : string :=
  or_else (default "" (user_metadata_name u))
    (or_else (default "" (before_at <$> user_email u)) "User").

(** [error.code === c]. *)
Definition has_code (e : JsError) (c : string) : bool :=
  bool_decide (code e = Some c).

(** ** The actions *)

(** [fetchProfile], lines 201-242. *)
Definition fetchProfile : Prog unit :=
  s ← get;
  match user s with
  | None => Ret tt
  | Some u =>
      try_catch
        (r ← await (profiles_select (user_id u));
         match resp_error r with
         | Some err =>
             if has_code err "PGRST116" then
               created ← await (profiles_insert (user_id u)
                                  (default "" (user_email u)) (seed_name u));
               match resp_error created with
               | Some createError => console "Create profile error:"
               | None => set (with_profile (data created) no_keys)
               end
             else Throw err
         | None => set (with_profile (data r) no_keys)
         end)
        (λ err, console "Fetch profile error:")
  end.

(** The callback [initialize] hands to [supabase.auth.onAuthStateChange],
    lines 66-88. *)
Definition auth_listener (event : string) (sess : option Session) : Prog unit :=
  console "Auth state changed:";;
  match sess with
  | Some sn =>
      set (with_user (Some (session_user sn))
             (with_session (Some sn) (with_error None no_keys)));;
      if String.eqb event "SIGNED_IN" || String.eqb event "TOKEN_REFRESHED"
      then fetchProfile
      else Ret tt
  | None =>
      set (with_user None (with_profile None
             (with_session None (with_error None no_keys))))
  end.

(** [initialize], lines 43-96. *)
Definition initialize : Prog unit :=
  try_catch
    (r ← await getSession;
     (if resp_error r is Some _ then console "Session error:" else Ret tt);;
     match data r with
     | Some sn =>
         set (with_user (Some (session_user sn))
                (with_session (Some sn) (with_isInitialized true no_keys)));;
         fetchProfile
     | None => set (with_isInitialized true no_keys)
     end;;
     onAuthStateChange)
    (λ err,
       console "Auth initialization error:";;
       set (with_error (Some (message err)) (with_isInitialized true no_keys))).

Definition confirm_email_message : string :=
  "Please confirm your email address by clicking the link in the email we sent you.".

(** [login], lines 98-133. *)
Definition login (email password : string) : Prog unit :=
  set (with_isLoading true (with_error None no_keys));;
  try_catch
    (r ← await (signInWithPassword email password);
     match resp_error r with
     | Some err =>
         if includes "Email not confirmed" (message err)
         then Throw {| message := confirm_email_message; code := None |}
         else Throw err
     | None =>
         match data_user (data r) with
         | Some u =>
             set (with_user (Some u)
                    (with_session (data_session (data r))
                       (with_isLoading false no_keys)));;
             fetchProfile
         | None => Ret tt
         end
     end)
    (λ err,
       console "Login error:";;
       set (with_error (Some (or_else (message err) "Login failed"))
              (with_isLoading false no_keys));;
       Throw err).

Definition check_email_message : string :=
  "Please check your email and click the confirmation link to complete your registration.".

(** [signup], lines 135-176. *)
Definition signup (email password name : string) : Prog unit :=
  set (with_isLoading true (with_error None no_keys));;
  try_catch
    (r ← await (signUp email password name);
     match resp_error r with
     | Some err => Throw err
     | None =>
         match data_user (data r) with
         | Some u =>
             if negb (truthy (email_confirmed_at u)) then
               set (with_error (Some check_email_message)
                      (with_isLoading false no_keys))
             else
               set (with_user (Some u)
                      (with_session (data_session (data r))
                         (with_isLoading false no_keys)))
         | None => Ret tt
         end
     end)
    (λ err,
       console "Signup error:";;
       set (with_error (Some (or_else (message err) "Signup failed"))
              (with_isLoading false no_keys));;
       Throw err).

(** [logout], lines 178-199. *)
Definition logout : Prog unit :=
  set (with_isLoading true (with_error None no_keys));;
  try_catch
    (r ← await signOut;
     match resp_error r with
     | Some err => Throw err
     | None =>
         set (with_user None (with_profile None
                (with_session None (with_isLoading false no_keys))))
     end)
    (λ err,
       console "Logout error:";;
       set (with_error (Some (or_else (message err) "Logout failed"))
              (with_isLoading false no_keys))).

(** [updateProfile], lines 244-271. *)
Definition updateProfile (updates : ProfileUpdates) : Prog unit :=
  s ← get;
  match user s with
  | None => Ret tt
  | Some u =>
      set (with_isLoading true (with_error None no_keys));;
      try_catch
        (r ← await (profiles_update updates (user_id u));
         match resp_error r with
         | Some err => Throw err
         | None => set (with_profile (data r) (with_isLoading false no_keys))
         end)
        (λ err,
           console "Update profile error:";;
           set (with_error (Some (or_else (message err) "Failed to update profile"))
                  (with_isLoading false no_keys)))
  end.

(** [clearError], lines 273-275. *)
Definition clearError : Prog unit :=
  set (with_error None no_keys).

(** ** Running one program to completion *)

Inductive Outcome (A : Type) :=
  | Returned (a : A)
  | Raised (e : JsError).
Arguments Returned {A} _.
Arguments Raised {A} _.

(** What an execution does, in order. *)
Inductive Event :=
  | Wrote (s : AuthState)
  | Called (c : Call)
  | Listening
  | Logged (label : string).

Record Result (A : Type) := {
  final : AuthState;
  outcome : Outcome A;
  trace : list Event;
  next : nat;
}.
Arguments final {A} _.
Arguments outcome {A} _.
Arguments trace {A} _.
Arguments next {A} _.

(** The remote side: how the [n]-th awaited call settles.  Every function of
    this type is a possible behaviour of the provider and the repository. *)
Definition Remote : Type := nat → ∀ c : Call, Settled (resp c).

Definition emit {A} (e : Event) (r : Result A) : Result A :=
  {| final := final r; outcome := outcome r;
     trace := e :: trace r; next := next r |}.

Fixpoint run {A} (p : Prog A) (o : Remote) (n : nat) (s : AuthState) : Result A :=
  match p with
  | Ret a => {| final := s; outcome := Returned a; trace := []; next := n |}
  | Throw e => {| final := s; outcome := Raised e; trace := []; next := n |}
  | Get k => run (k s) o n s
  | Put q k => emit (Wrote (merge s q)) (run k o n (merge s q))
  | Await c k => emit (Called c) (run (k (o n c)) o (S n) s)
  | Subscribe k => emit Listening (run k o n s)
  | Log l k => emit (Logged l) (run k o n s)
  end.

(** The states the store went through, the calls it made, and the number of
    listeners it registered. *)
Definition states (tr : list Event) : list AuthState :=
  omap (λ e, match e with Wrote s => Some s | _ => None end) tr.

Definition calls (tr : list Event) : list Call :=
  omap (λ e, match e with Called c => Some c | _ => None end) tr.

Definition registrations (tr : list Event) : nat :=
  length (omap (λ e, match e with Listening => Some tt | _ => None end) tr).

(** ** Sequences of actions, each run to completion *)

(** What the user interface can invoke on the store. *)
Inductive Action :=
  | do_initialize
  | do_login (email password : string)
  | do_signup (email password name : string)
  | do_logout
  | do_fetchProfile
  | do_updateProfile (updates : ProfileUpdates)
  | do_clearError.

Definition body (a : Action) : Prog unit :=
  match a with
  | do_initialize => initialize
  | do_login e p => login e p
  | do_signup e p n => signup e p n
  | do_logout => logout
  | do_fetchProfile => fetchProfile
  | do_updateProfile u => updateProfile u
  | do_clearError => clearError
  end.

(** What happens to the store: an action is invoked, or the provider pushes
    an identity-change notification. *)
Inductive Input :=
  | Invoke (a : Action)
  | Notify (event : string) (sess : option Session).

(** The provider calls every registered listener. *)
Fixpoint broadcast (listeners : nat) (event : string) (sess : option Session)
    : Prog unit :=
  match listeners with
  | O => Ret tt
  | S k => auth_listener event sess;; broadcast k event sess
  end.

Record Store := {
  state : AuthState;
  listeners : nat;
}.

Definition initial_store : Store :=
  {| state := initial_state; listeners := 0 |}.

Definition input_prog (listeners : nat) (i : Input) : Prog unit :=
  match i with
  | Invoke a => body a
  | Notify event sess => broadcast listeners event sess
  end.

Definition perform (i : Input) (o : Remote) (n : nat) (st : Store) : Result unit :=
  run (input_prog (listeners st) i) o n (state st).

Definition after (st : Store) (r : Result unit) : Store :=
  {| state := final r;
     listeners := listeners st + registrations (trace r) |}.

(** Runs the inputs one after the other; returns every state the store went
    through and the store at the end. *)
Fixpoint run_inputs (inputs : list Input) (o : Remote) (n : nat) (st : Store)
    : list AuthState * Store :=
  match inputs with
  | [] => ([], st)
  | i :: rest =>
      let r := perform i o n st in
      let '(visited, st') := run_inputs rest o (next r) (after st r) in
      ((states (trace r) ++ visited)%list, st')
  end.

(** ** Interleaved execution *)

(** An async function suspended at an await: the call it waits for and what
    it does once the call settles. *)
Record Task := {
  pending : Call;
  resume : Settled (resp pending) → Prog unit;
}.

Record Config := {
  store : AuthState;
  listening : nat;
  inflight : list Task;
}.

Definition initial_config : Config :=
  {| store := initial_state; listening := 0; inflight := [] |}.

(** Runs a program on the single execution context until it finishes or
    suspends at its next await.  A throw that nothing catches rejects the
    caller's promise and leaves the store as it is. *)
Fixpoint advance (p : Prog unit) (cfg : Config) : Config :=
  match p with
  | Ret _ | Throw _ => cfg
  | Get k => advance (k (store cfg)) cfg
  | Put q k =>
      advance k {| store := merge (store cfg) q; listening := listening cfg;
                   inflight := inflight cfg |}
  | Await c k =>
      {| store := store cfg; listening := listening cfg;
         inflight := (inflight cfg ++ [{| pending := c; resume := k |}])%list |}
  | Subscribe k =>
      advance k {| store := store cfg; listening := S (listening cfg);
                   inflight := inflight cfg |}
  | Log _ k => advance k cfg
  end.

Inductive step : Config → Config → Prop :=
  | step_invoke (a : Action) cfg :
      step cfg (advance (body a) cfg)
  | step_notify (event : string) (sess : option Session) cfg :
      step cfg (Nat.iter (listening cfg) (advance (auth_listener event sess)) cfg)
  | step_settle s l before (t : Task) later (r : Settled (resp (pending t))) :
      step {| store := s; listening := l; inflight := (before ++ t :: later)%list |}
           (advance (resume t r)
              {| store := s; listening := l; inflight := (before ++ later)%list |}).

Definition reachable (cfg : Config) : Prop := rtc step initial_config cfg.

(** Creation attempts for [id] that are awaiting their reply. *)
Definition creating (id : string) (t : Task) : bool :=
  match pending t with
  | profiles_insert id' _ _ => String.eqb id' id
  | _ => false
  end.

Definition creations_in_flight (id : string) (cfg : Config) : nat :=
  length (List.filter (creating id) (inflight cfg)).

(** ** The remote [profiles] table *)

(** Modelled from the spec: the profiles table is not created by the
    migration under [supabase/migrations]; that migration only refers to it
    through [REFERENCES profiles(id)], which requires [id] to be unique.  The
    table is a finite map from identity id to record: a lookup of an absent
    id answers with the not-found code, an insert of a present id is
    refused. *)
Definition not_found : JsError :=
  {| message := "JSON object requested, multiple (or no) rows returned";
     code := Some "PGRST116" |}.

Definition duplicate_key : JsError :=
  {| message := "duplicate key value violates unique constraint";
     code := Some "23505" |}.

Definition table_select (db : gmap string Profile) (id : string)
    : Response (option Profile) :=
  match db !! id with
  | Some p => {| data := Some p; resp_error := None |}
  | None => {| data := None; resp_error := Some not_found |}
  end.

Definition new_profile (id email name now : string) : Profile :=
  {| profile_id := id; profile_email := email; profile_name := name;
     avatar_url := None; created_at := now; updated_at := now |}.

Definition table_insert (db : gmap string Profile) (id email name now : string)
    : Response (option Profile) * gmap string Profile :=
  match db !! id with
  | Some _ => ({| data := None; resp_error := Some duplicate_key |}, db)
  | None =>
      ({| data := Some (new_profile id email name now); resp_error := None |},
       <[id := new_profile id email name now]> db)
  end.

(** ** Persistence *)

(** [partialize], lines 279-281: the object literal it returns is empty. *)
Definition partialize (s : AuthState) : Patch := no_keys.

(** Modelled from the spec: the persistence adapter is zustand's [persist]
    middleware, which is not part of the repository.  It saves
    [partialize state] under the storage key and, at process start, merges
    what it loads over the state the store was created with. *)
Definition save (s : AuthState) : Patch := partialize s.

Definition rehydrate (stored : option Patch) : AuthState :=
  match stored with
  | Some p => merge initial_state p
  | None => initial_state
  end.

(** ** Properties of states *)

(** [identity == null ⇒ profile == null]. *)
Definition profile_needs_identity (s : AuthState) : Prop :=
  user s = None → profile s = None.

(** A remote call failed: its promise rejected, or it resolved to an object
    whose [error] is set.  [failure r] is the error the action sees. *)
Definition failure {D} (r : Settled (Response D)) : option JsError :=
  match r with
  | Rejected e => Some e
  | Fulfilled v => resp_error v
  end.

(** The repository calls [fetchProfile] and [updateProfile] make for [u]. *)
Definition select_of (u : User) : Call := profiles_select (user_id u).

Definition insert_of (u : User) : Call :=
  profiles_insert (user_id u) (default "" (user_email u)) (seed_name u).

Definition update_of (updates : ProfileUpdates) (u : User) : Call :=
  profiles_update updates (user_id u).

(** The execution wrote nothing: the state at the end is [s]. *)
Definition untouched {A} (s : AuthState) (r : Result A) : Prop :=
  final r = s ∧ states (trace r) = [].

(** [s'] has the identity and the session of [s]. *)
Definition keeps_identity (s s' : AuthState) : Prop :=
  user s' = user s ∧ session s' = session s.

(** [p], started in a state that satisfies [P], only goes through states
    that satisfy [P]. *)
Definition preserves (P : AuthState → Prop) (p : Prog unit) : Prop :=
  ∀ o n s, P s →
    Forall P (states (trace (run p o n s))) ∧ P (final (run p o n s)).

Definition prepend {A} (tr : list Event) (r : Result A) : Result A :=
  {| final := final r; outcome := outcome r;
     trace := (tr ++ trace r)%list; next := next r |}.

(** ** Schedules *)

(** A reply of the remote side, of one of the four shapes of [resp]. *)
Inductive Reply :=
  | session_reply (r : Settled (Response (option Session)))
  | auth_reply (r : Settled (Response AuthData))
  | signout_reply (r : Settled (Response unit))
  | profile_reply (r : Settled (Response (option Profile))).

(** The reply read as an answer to [c], when it has the shape [c] expects. *)
Definition fits (c : Call) : Reply → option (Settled (resp c)) :=
  match c with
  | getSession => λ r, match r with session_reply x => Some x | _ => None end
  | signInWithPassword _ _ | signUp _ _ _ =>
      λ r, match r with auth_reply x => Some x | _ => None end
  | signOut => λ r, match r with signout_reply x => Some x | _ => None end
  | profiles_select _ | profiles_insert _ _ _ | profiles_update _ _ =>
      λ r, match r with profile_reply x => Some x | _ => None end
  end.

(** One move of an interleaved execution: an action is invoked, a
    notification is pushed, or the [i]-th suspended call settles. *)
Inductive Move :=
  | Invoked (a : Action)
  | Pushed (event : string) (sess : option Session)
  | Settles (i : nat) (r : Reply).

Definition without (i : nat) (cfg : Config) : Config :=
  {| store := store cfg; listening := listening cfg;
     inflight := delete i (inflight cfg) |}.

Definition move (m : Move) (cfg : Config) : option Config :=
  match m with
  | Invoked a => Some (advance (body a) cfg)
  | Pushed event sess =>
      Some (Nat.iter (listening cfg) (advance (auth_listener event sess)) cfg)
  | Settles i r =>
      t ← inflight cfg !! i;
      x ← fits (pending t) r;
      Some (advance (resume t x) (without i cfg))
  end.

Fixpoint play (moves : list Move) (cfg : Config) : option Config :=
  match moves with
  | [] => Some cfg
  | m :: rest => cfg' ← move m cfg; play rest cfg'
  end.

(** A remote side that answers the [n]-th call with the [n]-th reply of a
    script, and is unreachable where the script has no fitting reply. *)
Definition network_error : JsError :=
  {| message := "Failed to fetch"; code := None |}.

Definition scripted (replies : list Reply) : Remote :=
  λ n c, default (Rejected network_error) (replies !! n ≫= fits c).

Definition offline : Remote := scripted [].

(** ** Sample data *)

Definition alice : User :=
  {| user_id := "u1"; user_email := Some "a@x.com";
     email_confirmed_at := Some "2025-06-15T08:33:31Z";
     user_metadata_name := Some "Alice" |}.

Definition alice_session : Session :=
  {| session_user := alice; access_token := "token-1" |}.

Definition alice_profile : Profile :=
  new_profile "u1" "a@x.com" "Alice" "2025-06-15T08:33:31Z".

Definition alice_state : AuthState :=
  {| user := Some alice; profile := Some alice_profile;
     session := Some alice_session; isLoading := false;
     isInitialized := true; error := None |}.

(** A freshly registered identity whose email is not confirmed yet. *)
Definition bob : User :=
  {| user_id := "u2"; user_email := Some "b@x.com";
     email_confirmed_at := None; user_metadata_name := Some "Bob" |}.

Definition signed_in : Reply :=
  auth_reply (Fulfilled
    {| data := {| data_user := Some alice; data_session := Some alice_session |};
       resp_error := None |}).

Definition signed_in_without_user : Reply :=
  auth_reply (Fulfilled
    {| data := {| data_user := None; data_session := None |};
       resp_error := None |}).

Definition registered_unconfirmed : Reply :=
  auth_reply (Fulfilled
    {| data := {| data_user := Some bob; data_session := None |};
       resp_error := None |}).

Definition signed_out : Reply :=
  signout_reply (Fulfilled {| data := tt; resp_error := None |}).

Definition found_alice : Reply :=
  profile_reply (Fulfilled {| data := Some alice_profile; resp_error := None |}).

Definition missing : Reply :=
  profile_reply (Fulfilled {| data := None; resp_error := Some not_found |}).

Definition session_error : Reply :=
  session_reply (Fulfilled
    {| data := None;
       resp_error := Some {| message := "Invalid Refresh Token"; code := None |} |}).

(** [logout] is invoked and completes while the profile lookup that [login]
    started is still awaiting its reply. *)
Definition late_reply : list Move :=
  [Invoked (do_login "a@x.com" "pw"); Settles 0 signed_in;
   Invoked do_logout; Settles 1 signed_out; Settles 0 found_alice].

(** [fetchProfile] is invoked while the lookup that [login] started is in
    flight, and both lookups find no record. *)
Definition double_fetch : list Move :=
  [Invoked (do_login "a@x.com" "pw"); Settles 0 signed_in;
   Invoked do_fetchProfile; Settles 0 missing; Settles 0 missing].

(** ** What a program can write *)

(** Every partial [p] can pass to [set] satisfies [Q], whatever the store
    holds when it is read and however the awaited calls settle. *)
Fixpoint writes_satisfy {A} (Q : Patch → Prop) (p : Prog A) : Prop :=
  match p with
  | Ret _ | Throw _ => True
  | Get k => ∀ s, writes_satisfy Q (k s)
  | Put q k => Q q ∧ writes_satisfy Q k
  | Await c k => ∀ r, writes_satisfy Q (k r)
  | Subscribe k | Log _ k => writes_satisfy Q k
  end.

(** The same of every suspended function of a configuration. *)
Definition inflight_write (Q : Patch → Prop) (cfg : Config) : Prop :=
  Forall (λ t, ∀ r, writes_satisfy Q (resume t r)) (inflight cfg).

(** A partial that does not reset [isInitialized]. *)
Definition keeps_initialized (q : Patch) : Prop :=
  set_isInitialized q ≠ Some false.

(** A partial that writes the identity and the session together: none of
    them, an identity with whatever session came with it, or null for
    both. *)
Definition pairs_identity_with_session (q : Patch) : Prop :=
  match set_user q, set_session q with
  | None, None => True
  | Some (Some _), Some _ => True
  | Some None, Some None => True
  | _, _ => False
  end.

(** [session != null ⇒ identity != null]. *)
Definition session_needs_identity (s : AuthState) : Prop :=
  is_Some (session s) → is_Some (user s).

(** The listener fetches the profile for these two events only. *)
Definition fetching_event (event : string) : bool :=
  String.eqb event "SIGNED_IN" || String.eqb event "TOKEN_REFRESHED".

(** * Numbers of the language, as far as the team page computes with them *)

(** A finite double is a pair [(m, e)] that stands for [m * 2^e], with a
    significand [m] of at most 53 bits.  The exponent is not bounded: the
    quotients computed here lie far inside the range of doubles. *)
Module Number.

(** The quotient [a / (b * 2^e)] as a fraction of integers. *)
Definition scaled_num (a e : Z) : Z :=
  (if 0 <=? e then a else a * 2 ^ (- e))%Z.

Definition scaled_den (b e : Z) : Z :=
  (if 0 <=? e then b * 2 ^ e else b)%Z.

(** The exponent [e] for which [a / (b * 2^e)] lies in [2^52, 2^53). *)
Definition exponent_of (a b : Z) : Z :=
  let e1 := (Z.log2 a - Z.log2 b - 53)%Z in
  if (2 ^ 53 * scaled_den b e1 <=? scaled_num a e1)%Z then (e1 + 1)%Z else e1.

(** [n / d] rounded to the nearest integer, ties to the even one. *)
Definition nearest_even (n d : Z) : Z :=
  let m0 := (n `div` d)%Z in
  let r := (n `mod` d)%Z in
  if (2 * r <? d)%Z then m0
  else if (d <? 2 * r)%Z then (m0 + 1)%Z
  else if Z.even m0 then m0 else (m0 + 1)%Z.

(** The double nearest to [a / b], for [0 ≤ a] and [0 < b]. *)
Definition round_quotient (a b : Z) : Z * Z :=
  if (a =? 0)%Z then (0%Z, 0%Z)
  else
    let e := exponent_of a b in
    (nearest_even (scaled_num a e) (scaled_den b e), e).

(** [x / b] in doubles, for integers [x] and [0 < b]. *)
Definition divide (x b : Z) : Z * Z :=
  if (x <? 0)%Z then
    let '(m, e) := round_quotient (- x) b in ((- m)%Z, e)
  else round_quotient x b.

(** [Math.floor]. *)
Definition Math_floor (v : Z * Z) : Z :=
  let '(m, e) := v in
  (if 0 <=? e then m * 2 ^ e else m `div` 2 ^ (- e))%Z.

(** [x - y] in doubles, for integers that doubles hold: the double nearest
    to the difference, which is an integer. *)
Definition subtract (x y : Z) : Z := Math_floor (divide (x - y) 1).

(** The time value of a [Date]: a time outside the range of [Date] makes
    the date invalid and its [getTime()] NaN, [None] here. *)
Definition timeClip (t : Z) : option Z :=
  if (Z.abs t <=? 8640000000000000)%Z then Some t else None.

(** [x < k] and [x > k], false when [x] is NaN. *)
Definition less (x : option Z) (k : Z) : bool :=
  match x with Some v => (v <? k)%Z | None => false end.

Definition greater (x : option Z) (k : Z) : bool :=
  match x with Some v => (v >? k)%Z | None => false end.

(** [Math.floor(x / b)], NaN when [x] is. *)
Definition floor_of_quotient (x : option Z) (b : Z) : option Z :=
  v ← x; Some (Math_floor (divide v b)).

(** The number inside a template literal. *)
Definition shown (x : option Z) : string :=
  match x with Some v => pretty v | None => "NaN" end.

End Number.

(** * The team page of [src/components/TeamPage.tsx] *)

Module TeamPage.

(** [TeamMember], lines 22-31. *)
Record TeamMember := {
  id : string;
  name : string;
  email : string;
  role : string;
  avatar_url : option string;
  last_active : string;
  tasks_completed : nat;
  tasks_in_progress : nat;
}.

(** [TeamActivity], lines 33-40. *)
Record TeamActivity := {
  activity_id : string;
  user_name : string;
  action : string;
  target : string;
  created_at : string;
  activity_type : string;
}.

(** A task of the task store, which is not among the sources: the two
    fields the page reads.  [assignee_id] may be null. *)
Record TaskItem := {
  assignee_id : option string;
  status : string;
}.

(** A row of the [project_members] query: the role and the joined
    profile, which is null when the join finds none. *)
Record JoinedProfile := {
  joined_id : string;
  joined_name : string;
  joined_email : string;
  joined_avatar_url : option string;
}.

Record MemberRow := {
  row_role : string;
  row_user : option JoinedProfile;
}.

(** A row of the [team_activity] query, with the joined profile's name. *)
Record ActivityRow := {
  row_id : string;
  row_user_name : option string;
  row_action : string;
  row_target : string;
  row_created_at : string;
}.

(** The component's state that [fetchTeamData] writes. *)
Record PageState := {
  teamMembers : list TeamMember;
  teamActivity : list TeamActivity;
  isLoading : bool;
}.

Inductive Query :=
  | project_members (project_id : string)
  | team_activity (project_id : string).

Definition assigned_to (member_id : string) (t : TaskItem) : bool :=
  bool_decide (assignee_id t = Some member_id).

Definition has_status (s : string) (t : TaskItem) : bool :=
  String.eqb (status t) s.

(** The callback mapped over the member rows, lines 82-97.  Reading
    [member.user.id] of a null [user] throws: [None]. *)
Definition memberWithStats (tasks : list TaskItem) (member : MemberRow)
    : option TeamMember :=
  u ← row_user member;
  let userTasks := List.filter (assigned_to (joined_id u)) tasks in
  Some {| id := joined_id u;
          name := joined_name u;
          email := joined_email u;
          role := row_role member;
          avatar_url := joined_avatar_url u;
          last_active := "2 hours ago";
          tasks_completed := length (List.filter (has_status "done") userTasks);
          tasks_in_progress :=
            length (List.filter (has_status "in-progress") userTasks) |}.

(** The [type] of an activity, lines 121-123. *)
Definition activityType (action : string) : string :=
  if includes "completed" action then "completed"
  else if includes "created" action then "created"
  else if includes "commented" action then "commented"
  else "updated".

(** The callback mapped over the activity rows, lines 115-124. *)
Definition formatActivity (activity : ActivityRow) : option TeamActivity :=
  user_name ← row_user_name activity;
  Some {| activity_id := row_id activity;
          user_name := user_name;
          action := row_action activity;
          target := row_target activity;
          created_at := row_created_at activity;
          activity_type := activityType (row_action activity) |}.

Definition setTeamMembers (v : list TeamMember) (st : PageState) : PageState :=
  {| teamMembers := v; teamActivity := teamActivity st;
     isLoading := isLoading st |}.

Definition setTeamActivity (v : list TeamActivity) (st : PageState) : PageState :=
  {| teamMembers := teamMembers st; teamActivity := v;
     isLoading := isLoading st |}.

Definition setIsLoading (v : bool) (st : PageState) : PageState :=
  {| teamMembers := teamMembers st; teamActivity := teamActivity st;
     isLoading := v |}.

(** The rows of a settled query, [data || []], or [None] when the query
    rejected or returned an error (the [throw] of lines 78 and 113). *)
Definition rows_of {R} (reply : Settled (Response (option (list R))))
    : option (list R) :=
  match reply with
  | Rejected _ => None
  | Fulfilled v =>
      match resp_error v with
      | Some _ => None
      | None => Some (default [] (data v))
      end
  end.

(** The [try] block of [fetchTeamData], lines 61-126: the state when it
    ends or throws, and the queries it issued. *)
Definition load (project : string) (tasks : list TaskItem)
    (members : Settled (Response (option (list MemberRow))))
    (activity : Settled (Response (option (list ActivityRow))))
    (st : PageState) : PageState * list Query :=
  let st := setIsLoading true st in
  match rows_of members ≫= mapM (memberWithStats tasks) with
  | None => (st, [project_members project])
  | Some membersWithStats =>
      let st := setTeamMembers membersWithStats st in
      match rows_of activity ≫= mapM formatActivity with
      | None => (st, [project_members project; team_activity project])
      | Some formattedActivity =>
          (setTeamActivity formattedActivity st,
           [project_members project; team_activity project])
      end
  end.

(** [fetchTeamData], lines 55-132, given how its two queries settle.
    [user] is the store's identity and [currentProject] the task store's
    current project id. *)
Definition fetchTeamData (user : option User) (currentProject : option string)
    (tasks : list TaskItem)
    (members : Settled (Response (option (list MemberRow))))
    (activity : Settled (Response (option (list ActivityRow))))
    (st : PageState) : PageState * list Query :=
  match user, currentProject with
  | Some _, Some (String c rest) =>
      let '(st, queries) := load (String c rest) tasks members activity st in
      (setIsLoading false st, queries)
  | _, _ => (setIsLoading false st, [])
  end.

(** The header's numbers, lines 242-245. *)
Definition totalMembers (members : list TeamMember) : nat :=
  length members.

Definition activeToday (members : list TeamMember) : nat :=
  length (List.filter (λ m, includes "hour" (last_active m)) members).

Definition tasksCompleted (members : list TeamMember) : nat :=
  foldl (λ sum member, (sum + tasks_completed member)%nat) 0%nat members.

Definition tasksInProgress (members : list TeamMember) : nat :=
  foldl (λ sum member, (sum + tasks_in_progress member)%nat) 0%nat members.

(** [filteredMembers], lines 175-178.  [toLowerCase] is the string
    method of the language, taken as a parameter. *)
Definition filteredMembers (toLowerCase : string → string)
    (teamMembers : list TeamMember) (searchQuery : string) : list TeamMember :=
  List.filter
    (λ member,
       includes (toLowerCase searchQuery) (toLowerCase (name member)) ||
       includes (toLowerCase searchQuery) (toLowerCase (email member)))
    teamMembers.

(** Line 167 of [formatTimeAgo]: the minutes between the two dates, NaN
    ([None]) when one of them is invalid.  [now] is the clock's time in
    milliseconds and [date] what parsing [dateString] gives, [None] when
    it does not parse. *)
Definition diffInMinutes (now : Z) (date : option Z) : option Z :=
  n ← Number.timeClip now;
  d ← date ≫= Number.timeClip;
  Some (Number.Math_floor
          (Number.divide (Number.subtract n d) (1000 * 60))).

(** [formatTimeAgo], lines 164-173. *)
Definition formatTimeAgo (now : Z) (date : option Z) : string :=
  let diffInMinutes := diffInMinutes now date in
  if Number.less diffInMinutes 1 then "Just now"
  else if Number.less diffInMinutes 60 then
    Number.shown diffInMinutes +:+ " min ago"
  else if Number.less diffInMinutes 1440 then
    Number.shown (Number.floor_of_quotient diffInMinutes 60) +:+ " hour" +:+
    (if Number.greater (Number.floor_of_quotient diffInMinutes 60) 1
     then "s" else "") +:+ " ago"
  else
    Number.shown (Number.floor_of_quotient diffInMinutes 1440) +:+ " day" +:+
    (if Number.greater (Number.floor_of_quotient diffInMinutes 1440) 1
     then "s" else "") +:+ " ago".

End TeamPage.

(** A lower-casing of the ASCII letters, as a sample [toLowerCase]. *)
Definition ascii_lower (c : ascii) : ascii :=
  let n := Ascii.nat_of_ascii c in
  if (65 <=? n)%nat && (n <=? 90)%nat then Ascii.ascii_of_nat (n + 32) else c.

Fixpoint lower (s : string) : string :=
  match s with
  | "" => ""
  | String c rest => String (ascii_lower c) (lower rest)
  end.

(** The plural ending of a count. *)
Definition plural (n : Z) : string :=
  if decide (n = 1%Z) then "" else "s".

(** * Proofs *)

Local Open Scope list_scope.
Local Open Scope nat_scope.

(** Case analysis on every reply and test the execution branches on. *)
Ltac branches :=
  repeat match goal with
         | |- context [match ?x with _ => _ end] => destruct x eqn:?; simpl in *
         end.

Ltac invariant_cases :=
  unfold profile_needs_identity in *; simpl in *;
  repeat first [ split | constructor ]; simpl; intros; try congruence; auto.

(** ** The interpreters *)

Lemma run_bind {A B} (p : Prog A) (f : A → Prog B) o n s :
  run (bind p f) o n s =
    match outcome (run p o n s) with
    | Returned a =>
        prepend (trace (run p o n s))
          (run (f a) o (next (run p o n s)) (final (run p o n s)))
    | Raised e =>
        {| final := final (run p o n s); outcome := Raised e;
           trace := trace (run p o n s); next := next (run p o n s) |}
    end.
Proof.
  revert n s.
  induction p as [a|e|k IH|q k IH|c k IH|k IH|l k IH]; intros n s; simpl.
  - by destruct (run (f a) o n s).
  - done.
  - apply IH.
  - rewrite IH. by destruct (outcome _).
  - rewrite IH. by destruct (outcome _).
  - rewrite IH. by destruct (outcome _).
  - rewrite IH. by destruct (outcome _).
Qed.

Lemma states_app tr1 tr2 : states (tr1 ++ tr2) = states tr1 ++ states tr2.
Proof. apply omap_app. Qed.

Lemma or_else_nonempty m d : d ≠ "" → or_else m d ≠ "".
Proof. by destruct m. Qed.

Lemma move_step m cfg cfg' : move m cfg = Some cfg' → step cfg cfg'.
Proof.
  destruct m as [a|ev sess|i r]; simpl.
  - intros [= <-]. constructor.
  - intros [= <-]. constructor.
  - destruct (inflight cfg !! i) as [t|] eqn:Ht; simpl; [|done].
    destruct (fits (pending t) r) as [x|]; simpl; [|done].
    intros [= <-]. destruct cfg as [s l pool]. unfold without. simpl in *.
    rewrite (delete_take_drop pool i).
    pose proof (eq_sym (take_drop_middle pool i t Ht)) as Hpool.
    revert Hpool. generalize (take i pool), (drop (S i) pool).
    intros before later ->. constructor.
Qed.

(** Every schedule that plays is an execution of [step]. *)
Lemma play_steps moves cfg cfg' : play moves cfg = Some cfg' → rtc step cfg cfg'.
Proof.
  revert cfg. induction moves as [|m rest IH]; intros cfg; simpl.
  - intros [= <-]. constructor.
  - destruct (move m cfg) as [mid|] eqn:Hm; simpl; [|done].
    intros H. apply (rtc_l _ _ mid); [by apply (move_step m) | by apply IH].
Qed.

(** Running a program to completion is the interleaved execution in which
    every call it awaits settles before anything else happens. *)
Lemma run_is_a_schedule (p : Prog unit) o n cfg :
  rtc step (advance p cfg)
    {| store := final (run p o n (store cfg));
       listening := listening cfg + registrations (trace (run p o n (store cfg)));
       inflight := inflight cfg |}.
Proof.
  revert n cfg.
  induction p as [a|e|k IH|q k IH|c k IH|k IH|l k IH]; intros n cfg; simpl.
  - destruct cfg; simpl. rewrite Nat.add_0_r. constructor.
  - destruct cfg; simpl. rewrite Nat.add_0_r. constructor.
  - apply IH.
  - apply (IH n {| store := merge (store cfg) q; listening := listening cfg;
                   inflight := inflight cfg |}).
  - eapply rtc_l.
    + apply (step_settle (store cfg) (listening cfg) (inflight cfg)
               {| pending := c; resume := k |} [] (o n c)).
    + simpl. rewrite app_nil_r.
      apply (IH (o n c) (S n) {| store := store cfg; listening := listening cfg;
                                 inflight := inflight cfg |}).
  - unfold registrations. simpl. rewrite Nat.add_succ_r.
    apply (IH n {| store := store cfg; listening := S (listening cfg);
                   inflight := inflight cfg |}).
  - apply IH.
Qed.

Lemma completed_action_is_reachable (a : Action) o n cfg :
  reachable cfg →
  reachable
    {| store := final (run (body a) o n (store cfg));
       listening :=
         listening cfg + registrations (trace (run (body a) o n (store cfg)));
       inflight := inflight cfg |}.
Proof.
  intros Hcfg. unfold reachable.
  etrans; [exact Hcfg|].
  eapply rtc_l; [apply (step_invoke a)|]. apply run_is_a_schedule.
Qed.

(** ** The invariant, one action at a time *)

Lemma body_preserves a : preserves profile_needs_identity (body a).
Proof.
  intros o n s Hs.
  destruct a; simpl;
    unfold initialize, login, signup, logout, fetchProfile, updateProfile,
      clearError;
    simpl; branches; invariant_cases.
Qed.

Lemma auth_listener_preserves event sess :
  preserves profile_needs_identity (auth_listener event sess).
Proof.
  intros o n s Hs. unfold auth_listener, fetchProfile. simpl.
  branches; invariant_cases.
Qed.

(** The notification handler never raises. *)
Lemma auth_listener_returns event sess o n s :
  outcome (run (auth_listener event sess) o n s) = Returned tt.
Proof. unfold auth_listener, fetchProfile. simpl. branches; done. Qed.

Lemma broadcast_preserves k event sess :
  preserves profile_needs_identity (broadcast k event sess).
Proof.
  induction k as [|k IH]; intros o n s Hs.
  - by split.
  - change (broadcast (S k) event sess)
      with (bind (auth_listener event sess) (λ _, broadcast k event sess)).
    rewrite run_bind, auth_listener_returns. simpl.
    destruct (auth_listener_preserves event sess o n s Hs) as [H1 H2].
    destruct (IH o (next (run (auth_listener event sess) o n s)) _ H2)
      as [H3 H4].
    split; [|done]. rewrite states_app. by apply Forall_app.
Qed.

Lemma input_preserves k i : preserves profile_needs_identity (input_prog k i).
Proof. destruct i; [apply body_preserves | apply broadcast_preserves]. Qed.

Lemma run_inputs_preserve inputs o n st :
  profile_needs_identity (state st) →
  Forall profile_needs_identity (run_inputs inputs o n st).1 ∧
  profile_needs_identity (state (run_inputs inputs o n st).2).
Proof.
  revert n st. induction inputs as [|i rest IH]; intros n st Hst; simpl.
  - by split.
  - destruct (input_preserves (listeners st) i o n _ Hst) as [H1 H2].
    specialize (IH (next (perform i o n st)) (after st (perform i o n st)) H2).
    destruct (run_inputs rest o _ _) as [visited st']. simpl in *.
    destruct IH as [H3 H4]. split; [|done]. by apply Forall_app.
Qed.

(** ** Identity and profile *)

(** C1, as amended: when the actions and the identity-change notifications
    run in turn, each one to completion before the next one starts, then in
    every state the store goes through, and in the state at the end, a null
    identity comes with a null profile; whatever the remote side answers. *)
Theorem profile_needs_identity_when_inputs_run_in_turn
    (inputs : list Input) (o : Remote) :
  Forall profile_needs_identity (run_inputs inputs o 0 initial_store).1 ∧
  profile_needs_identity (state (run_inputs inputs o 0 initial_store).2).
Proof. by apply run_inputs_preserve. Qed.

(** C1, as stated, fails when executions overlap: [logout] completes while
    the profile lookup started by [login] is in flight; the lookup's reply
    then writes the profile although the identity is null. *)
Lemma late_reply_sets_profile_without_identity :
  ∃ cfg,
    play late_reply initial_config = Some cfg ∧
    reachable cfg ∧
    inflight cfg = [] ∧
    user (store cfg) = None ∧
    profile (store cfg) = Some alice_profile.
Proof.
  eexists. split; [reflexivity|].
  split; [by apply (play_steps late_reply)|].
  by repeat split.
Qed.

(** ** initialize *)

(** C2, as amended: whatever the remote side does, [initialize] returns
    normally and ends with [isInitialized] true.  A rejected session
    retrieval is recorded in [error]; an error that the retrieval returns in
    its result is only logged, and [error] keeps the value it had. *)
Theorem initialize_always_completes (o : Remote) (n : nat) (s : AuthState) :
  let r := run initialize o n s in
  outcome r = Returned tt ∧
  isInitialized (final r) = true ∧
  match o n getSession with
  | Rejected e => error (final r) = Some (message e)
  | Fulfilled _ => error (final r) = error s
  end.
Proof.
  unfold initialize, fetchProfile. simpl.
  destruct (o n getSession) as [v|e]; simpl; [|done].
  destruct (resp_error v), (data v) as [sn|]; simpl; try done.
  all: destruct (o (S n) _) as [found|e]; simpl; [|done].
  all: destruct (resp_error found) as [err|]; simpl; [|done].
  all: destruct (has_code err _); simpl; [|done].
  all: destruct (o (S (S n)) _) as [created|e]; simpl; [|done].
  all: destruct (resp_error created); simpl; done.
Qed.

(** C2, as stated, fails: the session retrieval answers with an error in its
    result, and [initialize] ends with [error] still null. *)
Lemma returned_session_error_is_not_recorded :
  failure (scripted [session_error] 0 getSession)
    = Some {| message := "Invalid Refresh Token"; code := None |} ∧
  outcome (run initialize (scripted [session_error]) 0 initial_state)
    = Returned tt ∧
  isInitialized (final (run initialize (scripted [session_error]) 0 initial_state))
    = true ∧
  error (final (run initialize (scripted [session_error]) 0 initial_state))
    = None.
Proof. by repeat split. Qed.

(** ** Propagation of failures *)

(** C3, as amended: when its remote call fails, [login] and [signup] record
    the error and re-raise it to the caller ([login] raises the
    confirm-your-email error in place of a returned error that mentions an
    unconfirmed email); [logout] and [updateProfile] record the error and
    return normally.  Each of the four holds from every state and for
    every remote side; [updateProfile] makes its call only when there is
    an identity. *)
Theorem failures_are_recorded_and_only_login_and_signup_raise
    (email password name : string) (updates : ProfileUpdates)
    (o : Remote) (n : nat) (s : AuthState) :
  (∀ e1, failure (o n (signInWithPassword email password)) = Some e1 →
     let thrown :=
       match o n (signInWithPassword email password) with
       | Fulfilled _ =>
           if includes "Email not confirmed" (message e1)
           then {| message := confirm_email_message; code := None |}
           else e1
       | Rejected _ => e1
       end in
     outcome (run (login email password) o n s) = Raised thrown ∧
     error (final (run (login email password) o n s))
       = Some (or_else (message thrown) "Login failed") ∧
     isLoading (final (run (login email password) o n s)) = false) ∧
  (∀ e2, failure (o n (signUp email password name)) = Some e2 →
     outcome (run (signup email password name) o n s) = Raised e2 ∧
     error (final (run (signup email password name) o n s))
       = Some (or_else (message e2) "Signup failed") ∧
     isLoading (final (run (signup email password name) o n s)) = false) ∧
  (∀ e3, failure (o n signOut) = Some e3 →
     outcome (run logout o n s) = Returned tt ∧
     error (final (run logout o n s))
       = Some (or_else (message e3) "Logout failed") ∧
     isLoading (final (run logout o n s)) = false) ∧
  (∀ u e4, user s = Some u →
     failure (o n (update_of updates u)) = Some e4 →
     outcome (run (updateProfile updates) o n s) = Returned tt ∧
     error (final (run (updateProfile updates) o n s))
       = Some (or_else (message e4) "Failed to update profile") ∧
     isLoading (final (run (updateProfile updates) o n s)) = false).
Proof.
  unfold login, signup, logout, updateProfile, update_of. simpl.
  split; [|split; [|split]].
  - intros e1 H1.
    destruct (o n (signInWithPassword _ _)) as [v|e]; simpl in *.
    + rewrite H1. simpl. by destruct (includes _ _).
    + by injection H1 as ->.
  - intros e2 H2.
    destruct (o n (signUp _ _ _)) as [v|e]; simpl in *; [by rewrite H2|].
    by injection H2 as ->.
  - intros e3 H3.
    destruct (o n signOut) as [v|e]; simpl in *; [by rewrite H3|].
    by injection H3 as ->.
  - intros u e4 Hu H4. rewrite Hu. simpl.
    destruct (o n (profiles_update _ _)) as [v|e]; simpl in *;
      [by rewrite H4|].
    by injection H4 as ->.
Qed.

Lemma failures_are_recorded_and_only_login_and_signup_raise_witness :
  (outcome (run (login "a@x.com" "wrong") offline 0 initial_state)
     = Raised network_error ∧
   error (final (run (login "a@x.com" "wrong") offline 0 initial_state))
     = Some "Failed to fetch" ∧
   isLoading (final (run (login "a@x.com" "wrong") offline 0 initial_state))
     = false) ∧
  (outcome (run (signup "a@x.com" "pw" "Alice") offline 0 initial_state)
     = Raised network_error ∧
   error (final (run (signup "a@x.com" "pw" "Alice") offline 0 initial_state))
     = Some "Failed to fetch" ∧
   isLoading (final (run (signup "a@x.com" "pw" "Alice") offline 0 initial_state))
     = false) ∧
  (outcome (run logout offline 0 initial_state) = Returned tt ∧
   error (final (run logout offline 0 initial_state)) = Some "Failed to fetch" ∧
   isLoading (final (run logout offline 0 initial_state)) = false) ∧
  (outcome
     (run (updateProfile {| upd_email := None; upd_name := Some "Al";
                            upd_avatar_url := None |}) offline 0 alice_state)
     = Returned tt ∧
   error (final
     (run (updateProfile {| upd_email := None; upd_name := Some "Al";
                            upd_avatar_url := None |}) offline 0 alice_state))
     = Some "Failed to fetch" ∧
   isLoading (final
     (run (updateProfile {| upd_email := None; upd_name := Some "Al";
                            upd_avatar_url := None |}) offline 0 alice_state))
     = false).
Proof.
  destruct (failures_are_recorded_and_only_login_and_signup_raise
              "a@x.com" "wrong" "Alice"
              {| upd_email := None; upd_name := Some "Al";
                 upd_avatar_url := None |} offline 0 initial_state)
    as (Hlogin & Hsignup & Hlogout & _).
  destruct (failures_are_recorded_and_only_login_and_signup_raise
              "a@x.com" "wrong" "Alice"
              {| upd_email := None; upd_name := Some "Al";
                 upd_avatar_url := None |} offline 0 alice_state)
    as (_ & _ & _ & Hupdate).
  split; [exact (Hlogin network_error eq_refl)|].
  split; [exact (Hsignup network_error eq_refl)|].
  split; [exact (Hlogout network_error eq_refl)|].
  exact (Hupdate alice network_error eq_refl eq_refl).
Defined.

(** C3, as stated, fails for [logout] (and likewise for [updateProfile]):
    the sign-out call fails and [logout] returns normally. *)
Lemma logout_swallows_failure :
  failure (offline 0 signOut) = Some network_error ∧
  outcome (run logout offline 0 alice_state) = Returned tt ∧
  error (final (run logout offline 0 alice_state)) = Some "Failed to fetch".
Proof. by repeat split. Qed.

(** ** fetchProfile *)

(** C4: [fetchProfile] never raises.  With a null identity it does nothing.
    Otherwise it looks the profile up, and when the lookup rejects, or
    returns an error whose code is not the not-found code, it writes nothing
    (so [profile] and [error] are as they were) and makes no further call.
    The insert is issued exactly when the lookup returns the not-found code;
    when the insert fails in its turn, nothing is written either. *)
Theorem fetchProfile_is_best_effort (o : Remote) (n : nat) (s : AuthState) :
  let r := run fetchProfile o n s in
  outcome r = Returned tt ∧
  match user s with
  | None => untouched s r ∧ calls (trace r) = []
  | Some u =>
      match o n (select_of u) with
      | Rejected _ => untouched s r ∧ calls (trace r) = [select_of u]
      | Fulfilled found =>
          match resp_error found with
          | None =>
              final r = merge s (with_profile (data found) no_keys) ∧
              calls (trace r) = [select_of u]
          | Some err =>
              if has_code err "PGRST116" then
                calls (trace r) = [select_of u; insert_of u] ∧
                match o (S n) (insert_of u) with
                | Rejected _ => untouched s r
                | Fulfilled created =>
                    match resp_error created with
                    | Some _ => untouched s r
                    | None =>
                        final r = merge s (with_profile (data created) no_keys)
                    end
                end
              else untouched s r ∧ calls (trace r) = [select_of u]
          end
      end
  end.
Proof.
  unfold fetchProfile, select_of, insert_of, untouched. simpl.
  destruct (user s) as [u|] eqn:Hu; simpl; [|done].
  destruct (o n _) as [found|e]; simpl; [|done].
  destruct (resp_error found) as [err|]; simpl; [|done].
  destruct (has_code err _); simpl; [|done].
  destruct (o (S n) _) as [created|e]; simpl; [|done].
  destruct (resp_error created); simpl; done.
Qed.

(** ** signup *)

(** C5, as amended: when the registration succeeds and returns an identity
    whose email is not confirmed, [signup] returns with [error] set to the
    check-your-email message and [isLoading] false, and no write of it
    touches the identity or the session: both are what they were before the
    call (null when the call started from a signed-out state). *)
Theorem signup_pending_confirmation
    (email password name : string) (u : User) (sess : option Session)
    (o : Remote) (n : nat) (s : AuthState) :
  o n (signUp email password name) =
    Fulfilled {| data := {| data_user := Some u; data_session := sess |};
                 resp_error := None |} →
  truthy (email_confirmed_at u) = false →
  let r := run (signup email password name) o n s in
  outcome r = Returned tt ∧
  user (final r) = user s ∧
  session (final r) = session s ∧
  Forall (keeps_identity s) (states (trace r)) ∧
  error (final r) = Some check_email_message ∧
  isLoading (final r) = false.
Proof.
  intros Hreply Hu. unfold signup, keeps_identity. simpl.
  rewrite Hreply. simpl. rewrite Hu. simpl.
  repeat split. by repeat constructor.
Qed.

Lemma signup_pending_confirmation_witness :
  let r := run (signup "b@x.com" "pw" "Bob")
             (scripted [registered_unconfirmed]) 0 initial_state in
  outcome r = Returned tt ∧
  user (final r) = None ∧
  session (final r) = None ∧
  Forall (keeps_identity initial_state) (states (trace r)) ∧
  error (final r) = Some check_email_message ∧
  isLoading (final r) = false.
Proof.
  apply (signup_pending_confirmation "b@x.com" "pw" "Bob" bob None
           (scripted [registered_unconfirmed]) 0 initial_state); reflexivity.
Defined.

(** C5, as stated, fails: [signup] is invoked while Alice is signed in and
    the registration of Bob is pending confirmation; the identity and the
    session are still Alice's afterwards, not null. *)
Lemma signup_pending_keeps_signed_in_identity :
  scripted [registered_unconfirmed] 0 (signUp "b@x.com" "pw" "Bob")
    = Fulfilled {| data := {| data_user := Some bob; data_session := None |};
                   resp_error := None |} ∧
  truthy (email_confirmed_at bob) = false ∧
  user (final (run (signup "b@x.com" "pw" "Bob")
                 (scripted [registered_unconfirmed]) 0 alice_state))
    = Some alice ∧
  session (final (run (signup "b@x.com" "pw" "Bob")
                    (scripted [registered_unconfirmed]) 0 alice_state))
    = Some alice_session.
Proof. by repeat split. Qed.

(** ** login and logout *)

(** C6: after a [login] that succeeds followed by a [logout] whose sign-out
    succeeds, identity, profile and session are null. *)
Theorem login_then_logout_clears
    (email password : string) (o : Remote) (n : nat) (s : AuthState) :
  let r1 := run (login email password) o n s in
  let r2 := run logout o (next r1) (final r1) in
  outcome r1 = Returned tt →
  failure (o (next r1) signOut) = None →
  user (final r2) = None ∧ profile (final r2) = None ∧ session (final r2) = None.
Proof.
  intros r1 r2 _. subst r2. generalize (next r1), (final r1). clear.
  intros m s Hout. unfold logout. simpl.
  destruct (o m signOut) as [v|e]; simpl in *; [|done].
  by rewrite Hout.
Qed.

Lemma login_then_logout_clears_witness :
  let o := scripted [signed_in; found_alice; signed_out] in
  let r1 := run (login "a@x.com" "pw") o 0 initial_state in
  let r2 := run logout o (next r1) (final r1) in
  (user (final r1) = Some alice ∧ profile (final r1) = Some alice_profile) ∧
  user (final r2) = None ∧ profile (final r2) = None ∧ session (final r2) = None.
Proof.
  split; [by split|].
  apply (login_then_logout_clears "a@x.com" "pw"
           (scripted [signed_in; found_alice; signed_out]) 0 initial_state);
    reflexivity.
Defined.

(** ** updateProfile *)

(** C7: [updateProfile] never changes the identity or the session: they
    have their prior values in every state it writes and at the end, on
    success and on failure.  When the update fails, [profile] also has its
    prior value, [error] is set to the error's message (or the default
    message) and [isLoading] is false. *)
Theorem updateProfile_keeps_identity_and_session
    (updates : ProfileUpdates) (o : Remote) (n : nat) (s : AuthState) :
  let r := run (updateProfile updates) o n s in
  keeps_identity s (final r) ∧
  Forall (keeps_identity s) (states (trace r)) ∧
  match user s with
  | None => final r = s
  | Some u =>
      match failure (o n (update_of updates u)) with
      | Some err =>
          profile (final r) = profile s ∧
          error (final r)
            = Some (or_else (message err) "Failed to update profile") ∧
          error (final r) ≠ None ∧ error (final r) ≠ Some "" ∧
          isLoading (final r) = false
      | None => isLoading (final r) = false
      end
  end.
Proof.
  unfold updateProfile, update_of, keeps_identity. simpl.
  destruct (user s) as [u|] eqn:Hu; simpl; [|by rewrite Hu].
  assert (Hne : ∀ m, Some (or_else m "Failed to update profile") ≠ Some "").
  { intros m [= H]. by apply or_else_nonempty in H. }
  destruct (o n _) as [v|e]; simpl.
  - destruct (resp_error v); simpl; repeat constructor; by rewrite ?Hu.
  - repeat constructor; by rewrite ?Hu.
Qed.

(** ** Persistence *)

(** C9: the selection of persisted fields retains none of the six fields,
    for any state, so what is saved is the empty object and rehydrating it
    gives the state the store is created with. *)
Theorem nothing_is_persisted (s : AuthState) :
  set_user (save s) = None ∧
  set_profile (save s) = None ∧
  set_session (save s) = None ∧
  set_isLoading (save s) = None ∧
  set_isInitialized (save s) = None ∧
  set_error (save s) = None ∧
  rehydrate (Some (save s)) = initial_state.
Proof. by repeat split. Qed.

(** ** login without a user record *)

(** C10: when the sign-in returns neither an error nor a user, [login]
    returns normally after its single call; [error] is null, [isLoading] is
    true in every state written and at the end, and identity, session and
    profile are unchanged. *)
Theorem login_without_user_stays_loading
    (email password : string) (sess : option Session)
    (o : Remote) (n : nat) (s : AuthState) :
  o n (signInWithPassword email password) =
    Fulfilled {| data := {| data_user := None; data_session := sess |};
                 resp_error := None |} →
  let r := run (login email password) o n s in
  outcome r = Returned tt ∧
  error (final r) = None ∧
  isLoading (final r) = true ∧
  Forall (λ s', isLoading s' = true) (states (trace r)) ∧
  user (final r) = user s ∧
  session (final r) = session s ∧
  profile (final r) = profile s ∧
  calls (trace r) = [signInWithPassword email password].
Proof.
  intros Hreply. unfold login. simpl. rewrite Hreply. simpl.
  repeat split. by repeat constructor.
Qed.

Lemma login_without_user_stays_loading_witness :
  let r := run (login "a@x.com" "pw")
             (scripted [signed_in_without_user]) 0 initial_state in
  outcome r = Returned tt ∧
  error (final r) = None ∧
  isLoading (final r) = true ∧
  Forall (λ s', isLoading s' = true) (states (trace r)) ∧
  user (final r) = None ∧
  session (final r) = None ∧
  profile (final r) = None ∧
  calls (trace r) = [signInWithPassword "a@x.com" "pw"].
Proof.
  apply (login_without_user_stays_loading "a@x.com" "pw" None
           (scripted [signed_in_without_user]) 0 initial_state); reflexivity.
Defined.

(** ** Concurrent creation *)

(** C8, as amended: the store has no guard on creation.  When two
    [fetchProfile] calls for the same identity are in flight and both
    lookups answer not-found, each call issues its own insert, without
    waiting and without reading again, so two creation attempts for the
    identity id are in flight together.  The table, keyed by id, accepts the
    first insert and refuses the second: one record exists afterwards, it is
    the one the store holds, and the refused call only logs. *)
Theorem concurrent_not_found_fetches_both_insert
    (s : AuthState) (l : nat) (u : User) (db : gmap string Profile)
    (now1 now2 : string) :
  user s = Some u →
  db !! user_id u = None →
  let id := user_id u in
  let email := default "" (user_email u) in
  let name := seed_name u in
  let start := {| store := s; listening := l; inflight := [] |} in
  let miss := profile_reply (Fulfilled (table_select db id)) in
  let first := table_insert db id email name now1 in
  let second := table_insert first.2 id email name now2 in
  ∃ mid finish,
    play [Invoked do_fetchProfile; Invoked do_fetchProfile;
          Settles 0 miss; Settles 0 miss] start = Some mid ∧
    creations_in_flight id mid = 2 ∧
    play [Settles 0 (profile_reply (Fulfilled first.1));
          Settles 0 (profile_reply (Fulfilled second.1))] mid = Some finish ∧
    inflight finish = [] ∧
    profile (store finish) = Some (new_profile id email name now1) ∧
    resp_error first.1 = None ∧
    resp_error second.1 = Some duplicate_key ∧
    second.2 = <[id := new_profile id email name now1]> db.
Proof.
  intros Hu Hdb. destruct s as [us pr se ld ini er]. simpl in Hu. subst us.
  simpl. unfold table_select, table_insert. rewrite Hdb. simpl.
  rewrite lookup_insert_eq. simpl.
  eexists _, _. split; [reflexivity|].
  split.
  { unfold creations_in_flight, creating. simpl. by rewrite String.eqb_refl. }
  split; [reflexivity|]. done.
Qed.

Lemma concurrent_not_found_fetches_both_insert_witness :
  let start := {| store := alice_state; listening := 1; inflight := [] |} in
  let miss := profile_reply (Fulfilled (table_select ∅ "u1")) in
  let first := table_insert ∅ "u1" "a@x.com" "Alice" "09:00" in
  let second := table_insert first.2 "u1" "a@x.com" "Alice" "09:01" in
  ∃ mid finish,
    play [Invoked do_fetchProfile; Invoked do_fetchProfile;
          Settles 0 miss; Settles 0 miss] start = Some mid ∧
    creations_in_flight "u1" mid = 2 ∧
    play [Settles 0 (profile_reply (Fulfilled first.1));
          Settles 0 (profile_reply (Fulfilled second.1))] mid = Some finish ∧
    inflight finish = [] ∧
    profile (store finish) = Some (new_profile "u1" "a@x.com" "Alice" "09:00") ∧
    resp_error first.1 = None ∧
    resp_error second.1 = Some duplicate_key ∧
    second.2 = <["u1" := new_profile "u1" "a@x.com" "Alice" "09:00"]> ∅.
Proof.
  apply (concurrent_not_found_fetches_both_insert
           alice_state 1 alice ∅ "09:00" "09:01"); reflexivity.
Defined.

(** C8, as stated, fails: [fetchProfile] is invoked while the lookup that
    [login] started is in flight, both lookups answer not-found, and two
    inserts for the same identity id are then awaiting their replies. *)
Lemma two_creations_in_flight :
  ∃ cfg,
    play double_fetch initial_config = Some cfg ∧
    reachable cfg ∧
    creations_in_flight "u1" cfg = 2 ∧
    map pending (inflight cfg)
      = [profiles_insert "u1" "a@x.com" "Alice";
         profiles_insert "u1" "a@x.com" "Alice"].
Proof.
  eexists. split; [reflexivity|].
  split; [by apply (play_steps double_fetch)|].
  by split.
Qed.

(** * Further properties of the store *)

(** ** Writes under every interleaving *)

Ltac writes_cases :=
  repeat first
    [ progress simpl
    | progress intros
    | split
    | match goal with
      | |- context [match ?x with _ => _ end] => destruct x
      end
    | done ].

Section Interleaved.
Context (P : AuthState → Prop) (Q : Patch → Prop).
Hypothesis merge_keeps : ∀ s q, P s → Q q → P (merge s q).
Hypothesis bodies_write : ∀ a, writes_satisfy Q (body a).
Hypothesis listener_writes : ∀ event sess,
  writes_satisfy Q (auth_listener event sess).

(** The property the interleaved executions keep: the state satisfies
    [P] and whatever is still suspended only writes partials in [Q]. *)
Definition kept (cfg : Config) : Prop :=
  P (store cfg) ∧ inflight_write Q cfg.

Lemma advance_kept (p : Prog unit) cfg :
  writes_satisfy Q p → kept cfg → kept (advance p cfg).
Proof.
  revert cfg.
  induction p as [a|e|k IH|q k IH|c k IH|k IH|l k IH];
    intros cfg Hp [Hs Ht]; simpl in *; try done.
  - by apply IH.
  - destruct Hp as [Hq Hk]. apply IH; [done|]. split; [|done].
    by apply merge_keeps.
  - split; [done|]. apply Forall_app. split; [done|].
    apply Forall_cons. split; [exact Hp | constructor].
  - by apply IH.
  - by apply IH.
Qed.

Lemma step_kept cfg cfg' : step cfg cfg' → kept cfg → kept cfg'.
Proof.
  intros Hstep Hk. destruct Hstep as [a cfg|event sess cfg|s l before t later r].
  - by apply advance_kept.
  - induction (listening cfg) as [|k IH]; simpl; [done|].
    apply advance_kept; [apply listener_writes | exact IH].
  - destruct Hk as [Hs Ht]. unfold inflight_write in Ht. simpl in *.
    apply Forall_app in Ht as [Hb Ht]. apply Forall_cons in Ht as [Hr Hl].
    apply advance_kept; [done|]. split; [done|].
    apply Forall_app. by split.
Qed.

Lemma steps_kept cfg cfg' : rtc step cfg cfg' → kept cfg → kept cfg'.
Proof. induction 1; eauto using step_kept. Qed.
End Interleaved.

Lemma body_keeps_initialized a : writes_satisfy keeps_initialized (body a).
Proof.
  destruct a; unfold keeps_initialized;
    unfold body, initialize, login, signup, logout, fetchProfile,
      updateProfile, clearError;
    writes_cases.
Qed.

Lemma listener_keeps_initialized event sess :
  writes_satisfy keeps_initialized (auth_listener event sess).
Proof. unfold keeps_initialized, auth_listener, fetchProfile. writes_cases. Qed.

Lemma body_pairs_identity a : writes_satisfy pairs_identity_with_session (body a).
Proof.
  destruct a; unfold pairs_identity_with_session;
    unfold body, initialize, login, signup, logout, fetchProfile,
      updateProfile, clearError;
    writes_cases.
Qed.

Lemma listener_pairs_identity event sess :
  writes_satisfy pairs_identity_with_session (auth_listener event sess).
Proof.
  unfold pairs_identity_with_session, auth_listener, fetchProfile. writes_cases.
Qed.

Lemma reachable_inflight_write Q cfg :
  (∀ a, writes_satisfy Q (body a)) →
  (∀ event sess, writes_satisfy Q (auth_listener event sess)) →
  reachable cfg → inflight_write Q cfg.
Proof.
  intros Hb Hl Hreach.
  apply (steps_kept (λ _, True) Q) in Hreach; auto.
  - by destruct Hreach.
  - split; [done|]. constructor.
Qed.

(** X1: once [isInitialized] is true it stays true, in every interleaved
    execution: no action and no notification handler, suspended or not,
    ever writes false to it. *)
Theorem isInitialized_never_reverts (cfg cfg' : Config) :
  reachable cfg →
  rtc step cfg cfg' →
  isInitialized (store cfg) = true →
  isInitialized (store cfg') = true.
Proof.
  intros Hreach Hsteps Hinit.
  apply (steps_kept (λ s, isInitialized s = true) keeps_initialized)
    in Hsteps.
  - by destruct Hsteps.
  - intros s q Hs Hq. unfold keeps_initialized in Hq. simpl.
    destruct (set_isInitialized q) as [[]|]; simpl; congruence.
  - apply body_keeps_initialized.
  - apply listener_keeps_initialized.
  - split; [done|].
    apply reachable_inflight_write;
      auto using body_keeps_initialized, listener_keeps_initialized.
Qed.

Lemma isInitialized_never_reverts_witness :
  isInitialized
    (store (default initial_config
       (play [Invoked do_initialize; Settles 0 session_error;
              Invoked (do_login "a@x.com" "pw"); Invoked do_logout;
              Settles 1 signed_out; Settles 0 signed_in;
              Pushed "SIGNED_OUT" None; Settles 0 found_alice]
          initial_config))) = true.
Proof.
  apply (isInitialized_never_reverts
           (default initial_config
              (play [Invoked do_initialize; Settles 0 session_error]
                 initial_config))).
  - by apply (play_steps [Invoked do_initialize; Settles 0 session_error]).
  - by apply (play_steps [Invoked (do_login "a@x.com" "pw"); Invoked do_logout;
                          Settles 1 signed_out; Settles 0 signed_in;
                          Pushed "SIGNED_OUT" None; Settles 0 found_alice]).
  - reflexivity.
Defined.

(** X2: in every configuration an interleaved execution reaches, a session
    comes with an identity: every write sets the two together. *)
Theorem session_needs_identity_when_interleaved (cfg : Config) :
  reachable cfg → is_Some (session (store cfg)) → is_Some (user (store cfg)).
Proof.
  intros Hreach.
  apply (steps_kept session_needs_identity pairs_identity_with_session)
    in Hreach.
  - by destruct Hreach.
  - intros s q Hs Hq. unfold session_needs_identity, pairs_identity_with_session in *.
    simpl. destruct (set_user q) as [[]|], (set_session q) as [[]|];
      simpl; try done; by intros [? [=]].
  - apply body_pairs_identity.
  - apply listener_pairs_identity.
  - split; [by intros [? [=]]|]. constructor.
Qed.

Lemma session_needs_identity_when_interleaved_witness :
  is_Some (user (store (default initial_config
         (play [Invoked (do_login "a@x.com" "pw"); Settles 0 signed_in]
            initial_config)))).
Proof.
  apply session_needs_identity_when_interleaved.
  - by apply (play_steps [Invoked (do_login "a@x.com" "pw"); Settles 0 signed_in]).
  - by eexists.
Defined.

(** ** The actions, one at a time *)

(** X3: every [initialize] whose session retrieval does not reject
    registers one more identity-change listener, whether or not a listener
    is registered already; one whose retrieval rejects registers none. *)
Theorem initialize_registers_a_listener_each_time
    (o : Remote) (n : nat) (st : Store) :
  listeners (after st (perform (Invoke do_initialize) o n st))
    = listeners st +
      match o n getSession with Rejected _ => 0 | Fulfilled _ => 1 end.
Proof.
  unfold after, perform, registrations. simpl. unfold initialize, fetchProfile.
  simpl. branches; simpl; lia.
Qed.

(** X4: when the sign-in returns a user, [login] returns normally with that
    user as identity, the session that came with it, [error] null and
    [isLoading] false, however the profile lookup and creation that follow
    settle. *)
Theorem login_succeeds_whatever_the_profile_fetch_does
    (email password : string) (u : User) (sess : option Session)
    (o : Remote) (n : nat) (s : AuthState) :
  o n (signInWithPassword email password) =
    Fulfilled {| data := {| data_user := Some u; data_session := sess |};
                 resp_error := None |} →
  let r := run (login email password) o n s in
  outcome r = Returned tt ∧
  user (final r) = Some u ∧
  session (final r) = sess ∧
  error (final r) = None ∧
  isLoading (final r) = false ∧
  isInitialized (final r) = isInitialized s.
Proof.
  intros Hreply. unfold login, fetchProfile. simpl. rewrite Hreply. simpl.
  branches; done.
Qed.

Lemma login_succeeds_whatever_the_profile_fetch_does_witness :
  let r := run (login "a@x.com" "pw") (scripted [signed_in]) 0 initial_state in
  outcome r = Returned tt ∧
  user (final r) = Some alice ∧
  session (final r) = Some alice_session ∧
  error (final r) = None ∧
  isLoading (final r) = false ∧
  isInitialized (final r) = false.
Proof.
  apply (login_succeeds_whatever_the_profile_fetch_does "a@x.com" "pw" alice
           (Some alice_session) (scripted [signed_in]) 0 initial_state).
  reflexivity.
Defined.

(** X5: [login] never clears [profile]: when the sign-in returns a user and
    the profile lookup then rejects, or returns an error other than
    not-found, [profile] keeps the value it had before the call, also when
    that value belongs to another identity. *)
Theorem login_keeps_profile_when_lookup_fails
    (email password : string) (u : User) (sess : option Session)
    (err : JsError) (o : Remote) (n : nat) (s : AuthState) :
  o n (signInWithPassword email password) =
    Fulfilled {| data := {| data_user := Some u; data_session := sess |};
                 resp_error := None |} →
  failure (o (S n) (select_of u)) = Some err →
  has_code err "PGRST116" = false →
  let r := run (login email password) o n s in
  user (final r) = Some u ∧ profile (final r) = profile s.
Proof.
  intros Hreply Hfail Hcode. unfold login, fetchProfile, select_of in *. simpl.
  rewrite Hreply. simpl.
  destruct (o (S n) _) as [found|e]; simpl in *; [|done].
  rewrite Hfail. simpl. by rewrite Hcode.
Qed.

Lemma login_keeps_profile_when_lookup_fails_witness :
  let r := run (login "b@x.com" "pw")
             (scripted [auth_reply (Fulfilled
                {| data := {| data_user := Some bob; data_session := None |};
                   resp_error := None |})]) 0 alice_state in
  user (final r) = Some bob ∧ profile (final r) = Some alice_profile.
Proof.
  apply (login_keeps_profile_when_lookup_fails "b@x.com" "pw" bob None
           network_error); reflexivity.
Defined.

(** X6: [signup] makes exactly one remote call, the registration, whatever
    its outcome, and never writes [profile]: no profile is looked up or
    created when an account is registered. *)
Theorem signup_never_touches_profile
    (email password name : string) (o : Remote) (n : nat) (s : AuthState) :
  let r := run (signup email password name) o n s in
  calls (trace r) = [signUp email password name] ∧
  profile (final r) = profile s ∧
  Forall (λ s', profile s' = profile s) (states (trace r)).
Proof.
  unfold signup. simpl. branches; repeat split; by repeat constructor.
Qed.

(** X7: when the registration returns a user whose email is confirmed,
    [signup] signs that user in: identity and session are the returned
    ones, [error] is null and [isLoading] false. *)
Theorem signup_confirmed_signs_in
    (email password name : string) (u : User) (sess : option Session)
    (o : Remote) (n : nat) (s : AuthState) :
  o n (signUp email password name) =
    Fulfilled {| data := {| data_user := Some u; data_session := sess |};
                 resp_error := None |} →
  truthy (email_confirmed_at u) = true →
  let r := run (signup email password name) o n s in
  outcome r = Returned tt ∧
  user (final r) = Some u ∧
  session (final r) = sess ∧
  error (final r) = None ∧
  isLoading (final r) = false.
Proof.
  intros Hreply Hu. unfold signup. simpl. rewrite Hreply. simpl.
  by rewrite Hu.
Qed.

Lemma signup_confirmed_signs_in_witness :
  let r := run (signup "a@x.com" "pw" "Alice") (scripted [signed_in]) 0
             initial_state in
  outcome r = Returned tt ∧
  user (final r) = Some alice ∧
  session (final r) = Some alice_session ∧
  error (final r) = None ∧
  isLoading (final r) = false.
Proof.
  apply (signup_confirmed_signs_in "a@x.com" "pw" "Alice" alice
           (Some alice_session) (scripted [signed_in]) 0 initial_state);
    reflexivity.
Defined.

(** X8: when the registration returns neither an error nor a user, [signup]
    returns normally with [isLoading] still true and nothing else changed
    but [error], which is null. *)
Theorem signup_without_user_stays_loading
    (email password name : string) (sess : option Session)
    (o : Remote) (n : nat) (s : AuthState) :
  o n (signUp email password name) =
    Fulfilled {| data := {| data_user := None; data_session := sess |};
                 resp_error := None |} →
  let r := run (signup email password name) o n s in
  outcome r = Returned tt ∧
  final r = merge s (with_isLoading true (with_error None no_keys)) ∧
  isLoading (final r) = true.
Proof.
  intros Hreply. unfold signup. simpl. by rewrite Hreply.
Qed.

Lemma signup_without_user_stays_loading_witness :
  let r := run (signup "a@x.com" "pw" "Alice")
             (scripted [signed_in_without_user]) 0 alice_state in
  outcome r = Returned tt ∧
  final r = merge alice_state (with_isLoading true (with_error None no_keys)) ∧
  isLoading (final r) = true.
Proof.
  apply (signup_without_user_stays_loading "a@x.com" "pw" "Alice" None
           (scripted [signed_in_without_user]) 0 alice_state).
  reflexivity.
Defined.

(** X9: [logout] always returns normally after its single call, with
    [isLoading] false.  When the sign-out fails, identity, profile and
    session are what they were (nothing is cleared ahead of the answer);
    when it succeeds, the three are null and [error] is null. *)
Theorem logout_clears_only_on_success (o : Remote) (n : nat) (s : AuthState) :
  let r := run logout o n s in
  outcome r = Returned tt ∧
  isLoading (final r) = false ∧
  calls (trace r) = [signOut] ∧
  match failure (o n signOut) with
  | Some err =>
      user (final r) = user s ∧ profile (final r) = profile s ∧
      session (final r) = session s ∧
      Forall (λ s', user s' = user s ∧ profile s' = profile s ∧
                    session s' = session s) (states (trace r))
  | None =>
      user (final r) = None ∧ profile (final r) = None ∧
      session (final r) = None ∧ error (final r) = None
  end.
Proof.
  unfold logout. simpl. destruct (o n signOut) as [v|e]; simpl.
  - destruct (resp_error v); simpl; repeat split; by repeat constructor.
  - repeat split; by repeat constructor.
Qed.

(** X10: the identity-change handler never raises, always clears [error]
    and never writes [isLoading] or [isInitialized].  Without a session it
    clears identity, profile and session and calls nothing.  With a session
    it sets identity and session, and looks the profile up exactly when the
    event is SIGNED_IN or TOKEN_REFRESHED; for any other event it calls
    nothing and leaves [profile] as it was. *)
Theorem listener_fetches_only_on_sign_in_events
    (event : string) (sess : option Session)
    (o : Remote) (n : nat) (s : AuthState) :
  let r := run (auth_listener event sess) o n s in
  outcome r = Returned tt ∧
  error (final r) = None ∧
  isLoading (final r) = isLoading s ∧
  isInitialized (final r) = isInitialized s ∧
  match sess with
  | None =>
      user (final r) = None ∧ profile (final r) = None ∧
      session (final r) = None ∧ calls (trace r) = []
  | Some sn =>
      user (final r) = Some (session_user sn) ∧
      session (final r) = Some sn ∧
      if fetching_event event
      then head (calls (trace r)) = Some (select_of (session_user sn))
      else calls (trace r) = [] ∧ profile (final r) = profile s
  end.
Proof.
  unfold auth_listener, fetchProfile, fetching_event, select_of. simpl.
  destruct sess as [sn|]; simpl; [|done].
  destruct (_ || _); simpl; [|done].
  branches; done.
Qed.

(** ** Seeding and reading back the profile *)

Lemma seed_name_nonempty u : seed_name u ≠ "".
Proof.
  unfold seed_name.
  destruct (default "" (user_metadata_name u)); simpl; [|done].
  by destruct (default "" (before_at <$> user_email u)).
Qed.

Lemma prefix_app needle rest : String.prefix needle (needle +:+ rest) = true.
Proof.
  induction needle as [|c needle IH]; simpl; [by destruct rest|].
  by destruct (ascii_dec c c).
Qed.

Lemma prefix_split needle hay :
  String.prefix needle hay = true → ∃ rest, hay = needle +:+ rest.
Proof.
  revert hay. induction needle as [|c needle IH]; intros hay H.
  - by exists hay.
  - destruct hay as [|d hay]; simpl in H; [done|].
    destruct (ascii_dec c d) as [->|]; [|done].
    destruct (IH hay H) as [rest ->]. by exists rest.
Qed.

Lemma includes_of_prefix needle hay :
  String.prefix needle hay = true → includes needle hay = true.
Proof.
  intros H. destruct hay as [|c hay].
  - change (includes needle "") with (String.prefix needle "" || false).
    by rewrite H.
  - change (includes needle (String c hay))
      with (String.prefix needle (String c hay) || includes needle hay).
    by rewrite H.
Qed.

(** [includes] finds the needle wherever it occurs. *)
Lemma includes_spec needle hay :
  includes needle hay = true ↔ ∃ before rest, hay = before +:+ needle +:+ rest.
Proof.
  split.
  - induction hay as [|c hay IH]; intros H.
    + destruct needle; [by exists "", ""|done].
    + change (includes needle (String c hay))
        with (String.prefix needle (String c hay) || includes needle hay) in H.
      apply orb_true_iff in H as [H|H].
      * apply prefix_split in H as [rest ->]. by exists "", rest.
      * destruct (IH H) as (before & rest & ->). by exists (String c before), rest.
  - intros (before & rest & ->).
    induction before as [|c before IH].
    + change ("" +:+ needle +:+ rest) with (needle +:+ rest).
      apply includes_of_prefix, prefix_app.
    + change (String c before +:+ needle +:+ rest)
        with (String c (before +:+ needle +:+ rest)).
      change (includes needle (String c (before +:+ needle +:+ rest)))
        with (String.prefix needle (String c (before +:+ needle +:+ rest))
              || includes needle (before +:+ needle +:+ rest)).
      rewrite IH. by rewrite orb_true_r.
Qed.

Lemma before_at_local local domain :
  includes "@" local = false →
  before_at (local +:+ "@" +:+ domain) = local.
Proof.
  induction local as [|c local IH]; [done|].
  change (String c local +:+ "@" +:+ domain)
    with (String c (local +:+ "@" +:+ domain)).
  simpl. intros H. apply orb_false_iff in H as [Hc Hrest].
  destruct (ascii_dec "@" c) as [<-|Hne]; [by destruct local|].
  destruct (Ascii.eqb_spec c "@") as [->|_]; [done|].
  by rewrite IH.
Qed.

(** X11: whenever [fetchProfile] issues an insert, it is for the current
    identity's id, with the identity's email (the empty string if it has
    none) and a name that is never empty. *)
Theorem created_profile_is_seeded_from_the_identity
    (id email name : string) (o : Remote) (n : nat) (s : AuthState) :
  profiles_insert id email name ∈ calls (trace (run fetchProfile o n s)) →
  ∃ u, user s = Some u ∧ id = user_id u ∧
       email = default "" (user_email u) ∧ name = seed_name u ∧ name ≠ "".
Proof.
  unfold fetchProfile. simpl. destruct (user s) as [u|]; simpl.
  - intros Hin. exists u.
    assert (profiles_insert id email name
              = profiles_insert (user_id u) (default "" (user_email u))
                  (seed_name u)) as [= -> -> ->].
    { revert Hin. branches; intros Hin;
        repeat match goal with
               | H : _ ∈ _ :: _ |- _ => apply elem_of_cons in H as [H|H]
               | H : _ ∈ [] |- _ => by apply elem_of_nil in H
               end; done. }
    repeat split. apply seed_name_nonempty.
  - intros Hin. by apply elem_of_nil in Hin.
Qed.

Lemma created_profile_is_seeded_from_the_identity_witness :
  ∃ u, user alice_state = Some u ∧ "u1" = user_id u ∧
       "a@x.com" = default "" (user_email u) ∧ "Alice" = seed_name u ∧
       "Alice" ≠ "".
Proof.
  apply (created_profile_is_seeded_from_the_identity "u1" "a@x.com" "Alice"
           (scripted [missing]) 0 alice_state).
  simpl. constructor 2. constructor 1.
Defined.

(** X12: an identity without a metadata name is given the part of its email
    before the first at-sign as profile name. *)
Theorem seed_name_falls_back_to_email_local_part
    (u : User) (local domain : string) :
  truthy (user_metadata_name u) = false →
  user_email u = Some (local +:+ "@" +:+ domain) →
  local ≠ "" →
  includes "@" local = false →
  seed_name u = local.
Proof.
  intros Hname Hemail Hlocal Hat. unfold seed_name. rewrite Hemail. simpl.
  rewrite (before_at_local _ _ Hat).
  destruct (user_metadata_name u) as [[|c nm]|]; simpl in *; try done;
    by destruct local.
Qed.

Lemma seed_name_falls_back_to_email_local_part_witness :
  seed_name {| user_id := "u3"; user_email := Some "carol@x.com";
               email_confirmed_at := None; user_metadata_name := None |}
    = "carol".
Proof.
  apply (seed_name_falls_back_to_email_local_part _ "carol" "x.com");
    reflexivity || discriminate.
Defined.

(** X13: [fetchProfile] against the table, then [fetchProfile] again: after
    the first call the store holds the table's record for the identity
    (found, or created when absent), and the second call only looks the
    record up and leaves [profile] the same. *)
Theorem fetchProfile_again_reads_the_same_record
    (u : User) (db : gmap string Profile) (now : string)
    (o : Remote) (n : nat) (s : AuthState) :
  let id := user_id u in
  let created := table_insert db id (default "" (user_email u)) (seed_name u) now in
  let db' := if db !! id is Some _ then db else created.2 in
  let r1 := run fetchProfile o n s in
  let r2 := run fetchProfile o (next r1) (final r1) in
  user s = Some u →
  o n (select_of u) = Fulfilled (table_select db id) →
  o (S n) (insert_of u) = Fulfilled created.1 →
  o (next r1) (select_of u) = Fulfilled (table_select db' id) →
  profile (final r1) = db' !! id ∧
  is_Some (profile (final r1)) ∧
  profile (final r2) = profile (final r1) ∧
  calls (trace r2) = [select_of u].
Proof.
  intros id created db' r1 r2 Hu Hsel Hins Hsel'.
  subst r2 r1 db' created id. revert Hsel Hins Hsel'.
  unfold fetchProfile, select_of, insert_of, table_select, table_insert.
  simpl. rewrite Hu. simpl.
  intros ->. destruct (db !! user_id u) as [p|] eqn:Hdb; simpl.
  - intros _. rewrite Hu. simpl. intros ->. rewrite Hdb. simpl. eauto.
  - intros ->. simpl. rewrite Hu. simpl. intros ->.
    rewrite lookup_insert_eq. simpl. eauto.
Qed.

Lemma fetchProfile_again_reads_the_same_record_witness :
  let o := scripted [missing; found_alice; found_alice] in
  let created :=
    table_insert ∅ (user_id alice) (default "" (user_email alice))
      (seed_name alice) "2025-06-15T08:33:31Z" in
  let db' :=
    if (∅ : gmap string Profile) !! user_id alice is Some _
    then ∅ else created.2 in
  let r1 := run fetchProfile o 0 alice_state in
  let r2 := run fetchProfile o (next r1) (final r1) in
  profile (final r1) = db' !! user_id alice ∧
  is_Some (profile (final r1)) ∧
  profile (final r2) = profile (final r1) ∧
  calls (trace r2) = [select_of alice].
Proof.
  apply (fetchProfile_again_reads_the_same_record alice ∅ "2025-06-15T08:33:31Z"
           (scripted [missing; found_alice; found_alice]) 0 alice_state);
    reflexivity.
Defined.

(** X14: [login] replaces a returned sign-in error by the
    confirm-your-email error when the error's message contains the words
    "Email not confirmed" anywhere, and then [error] holds the
    confirm-your-email message; any other returned error is raised as it
    is. *)
Theorem login_translates_unconfirmed_email
    (email password : string) (v : Response AuthData) (err : JsError)
    (o : Remote) (n : nat) (s : AuthState) :
  o n (signInWithPassword email password) = Fulfilled v →
  resp_error v = Some err →
  let r := run (login email password) o n s in
  ((∃ before rest, message err = before +:+ "Email not confirmed" +:+ rest) →
     outcome r = Raised {| message := confirm_email_message; code := None |} ∧
     error (final r) = Some confirm_email_message) ∧
  ((¬ ∃ before rest, message err = before +:+ "Email not confirmed" +:+ rest) →
     outcome r = Raised err ∧
     error (final r) = Some (or_else (message err) "Login failed")).
Proof.
  intros Hreply Herr. unfold login. simpl. rewrite Hreply. simpl.
  rewrite Herr. simpl.
  destruct (includes "Email not confirmed" (message err)) eqn:Hinc; simpl.
  - split; [done|]. intros Hno. destruct Hno. by apply includes_spec.
  - split; [|done]. intros Hyes. apply includes_spec in Hyes. congruence.
Qed.

Lemma login_translates_unconfirmed_email_witness :
  let o := scripted [auth_reply (Fulfilled
             {| data := {| data_user := None; data_session := None |};
                resp_error := Some {| message := "AuthApiError: Email not confirmed";
                                      code := None |} |})] in
  outcome (run (login "a@x.com" "pw") o 0 initial_state)
    = Raised {| message := confirm_email_message; code := None |} ∧
  error (final (run (login "a@x.com" "pw") o 0 initial_state))
    = Some confirm_email_message.
Proof.
  apply (login_translates_unconfirmed_email "a@x.com" "pw"
           {| data := {| data_user := None; data_session := None |};
              resp_error := Some {| message := "AuthApiError: Email not confirmed";
                                    code := None |} |}
           {| message := "AuthApiError: Email not confirmed"; code := None |}
           (scripted [auth_reply (Fulfilled
             {| data := {| data_user := None; data_session := None |};
                resp_error := Some {| message := "AuthApiError: Email not confirmed";
                                      code := None |} |})]) 0 initial_state
           eq_refl eq_refl).
  by exists "AuthApiError: ", "".
Defined.

(** * The team page *)

Section TeamPageProperties.
Import TeamPage.

Lemma includes_empty s : includes "" s = true.
Proof. apply includes_of_prefix. by destruct s. Qed.

Lemma rows_of_failed {R} (reply : Settled (Response (option (list R)))) :
  is_Some (failure reply) → rows_of reply = None.
Proof.
  destruct reply as [v|e]; simpl; [|done].
  intros [err ->]. done.
Qed.

(** X15: [fetchTeamData] always ends with [isLoading] false.  It issues
    no query exactly when there is no identity or no current project
    (null or the empty string), and then leaves both lists as they
    were. *)
Theorem fetchTeamData_always_stops_loading
    (user : option User) (currentProject : option string)
    (tasks : list TaskItem)
    (members : Settled (Response (option (list MemberRow))))
    (activity : Settled (Response (option (list ActivityRow))))
    (st : PageState) :
  let r := fetchTeamData user currentProject tasks members activity st in
  isLoading r.1 = false ∧
  (r.2 = [] ↔
     user = None ∨ currentProject = None ∨ currentProject = Some "") ∧
  (r.2 = [] →
     teamMembers r.1 = teamMembers st ∧ teamActivity r.1 = teamActivity st).
Proof.
  unfold fetchTeamData, load.
  destruct user as [u|], currentProject as [[|c rest]|]; simpl;
    try (split; [done|]; split; [|done]; split; [auto|done]).
  destruct (rows_of members ≫= mapM (memberWithStats tasks)); simpl.
  - destruct (rows_of activity ≫= mapM formatActivity); simpl;
      (split; [done|]; split; [|done]; split; [done|]);
      by intros [|[|]].
  - split; [done|]. split; [|done]. split; [done|]. by intros [|[|]].
Qed.

(** X16: when the member query fails (it rejects or returns an error), or
    one of its rows has no joined profile, [fetchTeamData] changes
    neither list, not even for the rows that were complete, and never
    issues the activity query. *)
Theorem failed_member_load_changes_nothing
    (u : User) (project : string) (tasks : list TaskItem)
    (members : Settled (Response (option (list MemberRow))))
    (activity : Settled (Response (option (list ActivityRow))))
    (st : PageState) :
  project ≠ "" →
  (is_Some (failure members) ∨
   ∃ v row, members = Fulfilled v ∧ row ∈ default [] (data v) ∧
            row_user row = None) →
  fetchTeamData (Some u) (Some project) tasks members activity st
    = (setIsLoading false st, [project_members project]).
Proof.
  intros Hproject Hfail. unfold fetchTeamData, load.
  destruct project as [|c rest]; [done|].
  assert (rows_of members ≫= mapM (memberWithStats tasks) = None) as ->.
  { destruct Hfail as [Hfail|(v & row & -> & Hin & Hrow)].
    - by rewrite (rows_of_failed _ Hfail).
    - simpl. destruct (resp_error v); simpl; [done|].
      apply mapM_None, Exists_exists. exists row. split; [done|].
      unfold memberWithStats. by rewrite Hrow. }
  done.
Qed.

Lemma failed_member_load_changes_nothing_witness :
  fetchTeamData (Some alice) (Some "p1")
    [ {| assignee_id := Some "u1"; status := "done" |} ]
    (Fulfilled
       {| data := Some
            [ {| row_role := "owner";
                 row_user := Some {| joined_id := "u1"; joined_name := "Alice";
                                     joined_email := "a@x.com";
                                     joined_avatar_url := None |} |};
              {| row_role := "member"; row_user := None |} ];
          resp_error := None |})
    (Fulfilled
       {| data := Some
            [ {| row_id := "a2"; row_user_name := Some "Alice";
                 row_action := "created task"; row_target := "Plan";
                 row_created_at := "2025-06-15T09:00:00Z" |} ];
          resp_error := None |})
    {| teamMembers :=
         [ {| id := "u9"; name := "Dave"; email := "d@x.com"; role := "viewer";
              avatar_url := None; last_active := "2 hours ago";
              tasks_completed := 3; tasks_in_progress := 1 |} ];
       teamActivity :=
         [ {| activity_id := "a1"; user_name := "Dave";
              action := "completed task"; target := "Draft";
              created_at := "2025-06-14T09:00:00Z";
              activity_type := "completed" |} ];
       isLoading := true |}
  = ({| teamMembers :=
          [ {| id := "u9"; name := "Dave"; email := "d@x.com"; role := "viewer";
               avatar_url := None; last_active := "2 hours ago";
               tasks_completed := 3; tasks_in_progress := 1 |} ];
        teamActivity :=
          [ {| activity_id := "a1"; user_name := "Dave";
               action := "completed task"; target := "Draft";
               created_at := "2025-06-14T09:00:00Z";
               activity_type := "completed" |} ];
        isLoading := false |},
     [project_members "p1"]).
Proof.
  apply (failed_member_load_changes_nothing alice "p1").
  - discriminate.
  - right. eexists _, {| row_role := "member"; row_user := None |}.
    split; [reflexivity|].
    split; [simpl; constructor 2; constructor 1 | reflexivity].
Defined.

(** X17: when the members load and the activity query then fails, or one
    of its rows has no joined profile, the member list is the new one
    while the activity list is still the old one. *)
Theorem failed_activity_load_keeps_new_members
    (u : User) (project : string) (tasks : list TaskItem)
    (members : Settled (Response (option (list MemberRow))))
    (activity : Settled (Response (option (list ActivityRow))))
    (loaded : list TeamMember) (st : PageState) :
  project ≠ "" →
  rows_of members ≫= mapM (memberWithStats tasks) = Some loaded →
  (is_Some (failure activity) ∨
   ∃ v row, activity = Fulfilled v ∧ row ∈ default [] (data v) ∧
            row_user_name row = None) →
  fetchTeamData (Some u) (Some project) tasks members activity st
    = ({| teamMembers := loaded; teamActivity := teamActivity st;
          isLoading := false |},
       [project_members project; team_activity project]).
Proof.
  intros Hproject Hmembers Hfail. unfold fetchTeamData, load.
  destruct project as [|c rest]; [done|]. rewrite Hmembers.
  assert (rows_of activity ≫= mapM formatActivity = None) as ->.
  { destruct Hfail as [Hfail|(v & row & -> & Hin & Hrow)].
    - by rewrite (rows_of_failed _ Hfail).
    - simpl. destruct (resp_error v); simpl; [done|].
      apply mapM_None, Exists_exists. exists row. split; [done|].
      unfold formatActivity. by rewrite Hrow. }
  done.
Qed.

Lemma failed_activity_load_keeps_new_members_witness :
  fetchTeamData (Some alice) (Some "p1")
    [ {| assignee_id := Some "u1"; status := "done" |};
      {| assignee_id := Some "u1"; status := "in-progress" |} ]
    (Fulfilled
       {| data := Some
            [ {| row_role := "owner";
                 row_user := Some {| joined_id := "u1"; joined_name := "Alice";
                                     joined_email := "a@x.com";
                                     joined_avatar_url := None |} |} ];
          resp_error := None |})
    (Fulfilled
       {| data := Some
            [ {| row_id := "a2"; row_user_name := Some "Alice";
                 row_action := "created task"; row_target := "Plan";
                 row_created_at := "2025-06-15T09:00:00Z" |};
              {| row_id := "a3"; row_user_name := None;
                 row_action := "commented"; row_target := "Plan";
                 row_created_at := "2025-06-15T10:00:00Z" |} ];
          resp_error := None |})
    {| teamMembers :=
         [ {| id := "u9"; name := "Dave"; email := "d@x.com"; role := "viewer";
              avatar_url := None; last_active := "2 hours ago";
              tasks_completed := 3; tasks_in_progress := 1 |} ];
       teamActivity :=
         [ {| activity_id := "a1"; user_name := "Dave";
              action := "completed task"; target := "Draft";
              created_at := "2025-06-14T09:00:00Z";
              activity_type := "completed" |} ];
       isLoading := true |}
  = ({| teamMembers :=
          [ {| id := "u1"; name := "Alice"; email := "a@x.com"; role := "owner";
               avatar_url := None; last_active := "2 hours ago";
               tasks_completed := 1; tasks_in_progress := 1 |} ];
        teamActivity :=
          [ {| activity_id := "a1"; user_name := "Dave";
               action := "completed task"; target := "Draft";
               created_at := "2025-06-14T09:00:00Z";
               activity_type := "completed" |} ];
        isLoading := false |},
     [project_members "p1"; team_activity "p1"]).
Proof.
  apply (failed_activity_load_keeps_new_members alice "p1").
  - discriminate.
  - reflexivity.
  - right. eexists _, {| row_id := "a3"; row_user_name := None;
                         row_action := "commented"; row_target := "Plan";
                         row_created_at := "2025-06-15T10:00:00Z" |}.
    split; [reflexivity|].
    split; [simpl; constructor 2; constructor 1 | reflexivity].
Defined.

(** ** Task statistics *)

Lemma filter_filter_length {A} (p q : A → bool) (l : list A) :
  length (List.filter p (List.filter q l))
    = length (List.filter (λ x, q x && p x) l).
Proof.
  induction l as [|x l IH]; simpl; [done|].
  destruct (q x); simpl; [|done]. destruct (p x); simpl; lia.
Qed.

Lemma filter_disjoint_length {A} (p q : A → bool) (l : list A) :
  (∀ x, p x = true → q x = true → False) →
  length (List.filter p l) + length (List.filter q l) ≤ length l.
Proof.
  intros Hpq. induction l as [|x l IH]; simpl; [done|].
  destruct (p x) eqn:Hp, (q x) eqn:Hq; simpl; try lia.
  destruct (Hpq x Hp Hq).
Qed.

Lemma filter_split_length {A} (d a b : A → bool) (l : list A) :
  (∀ x, a x = true → b x = true → False) →
  length (List.filter (λ x, d x && (a x || b x)) l)
    = length (List.filter (λ x, a x && d x) l)
      + length (List.filter (λ x, d x && b x) l).
Proof.
  intros Hab. induction l as [|x l IH]; simpl; [done|].
  destruct (d x), (a x) eqn:Ha, (b x) eqn:Hb; simpl; try lia.
  destruct (Hab x Ha Hb).
Qed.

Lemma memberWithStats_counts tasks row m :
  memberWithStats tasks row = Some m →
  tasks_completed m
    = length (List.filter
                (λ t, assigned_to (id m) t && has_status "done" t) tasks) ∧
  tasks_in_progress m
    = length (List.filter
                (λ t, assigned_to (id m) t && has_status "in-progress" t)
                tasks) ∧
  last_active m = "2 hours ago".
Proof.
  unfold memberWithStats. destruct (row_user row) as [u|]; simpl; [|done].
  intros [= <-]. simpl. by rewrite !filter_filter_length.
Qed.

(** X18: the two counts shown for a member are the numbers of the tasks
    assigned to that member whose status is "done" and "in-progress";
    together they never exceed the number of tasks assigned to the
    member. *)
Theorem member_counts_are_bounded_by_assigned_tasks
    (tasks : list TaskItem) (row : MemberRow) (m : TeamMember) :
  memberWithStats tasks row = Some m →
  tasks_completed m
    = length (List.filter
                (λ t, assigned_to (id m) t && has_status "done" t) tasks) ∧
  tasks_in_progress m
    = length (List.filter
                (λ t, assigned_to (id m) t && has_status "in-progress" t)
                tasks) ∧
  tasks_completed m + tasks_in_progress m
    ≤ length (List.filter (assigned_to (id m)) tasks).
Proof.
  intros Hm. destruct (memberWithStats_counts _ _ _ Hm) as (H1 & H2 & _).
  split; [done|]. split; [done|]. clear H1 H2. revert Hm.
  unfold memberWithStats. destruct (row_user row) as [u|]; simpl; [|done].
  intros [= <-]. simpl. apply filter_disjoint_length.
  intros t H1 H2. unfold has_status in *.
  apply String.eqb_eq in H1, H2. congruence.
Qed.

Lemma member_counts_are_bounded_by_assigned_tasks_witness :
  2 + 1 ≤ length (List.filter (assigned_to "u1")
    [ {| assignee_id := Some "u1"; status := "done" |};
      {| assignee_id := Some "u1"; status := "todo" |};
      {| assignee_id := None; status := "done" |};
      {| assignee_id := Some "u1"; status := "in-progress" |};
      {| assignee_id := Some "u1"; status := "done" |} ]).
Proof.
  refine (proj2 (proj2 (member_counts_are_bounded_by_assigned_tasks
           [ {| assignee_id := Some "u1"; status := "done" |};
             {| assignee_id := Some "u1"; status := "todo" |};
             {| assignee_id := None; status := "done" |};
             {| assignee_id := Some "u1"; status := "in-progress" |};
             {| assignee_id := Some "u1"; status := "done" |} ]
           {| row_role := "owner";
              row_user := Some {| joined_id := "u1"; joined_name := "Alice";
                                  joined_email := "a@x.com";
                                  joined_avatar_url := None |} |}
           _ eq_refl))).
Defined.

Lemma tasksCompleted_cons m ms :
  tasksCompleted (m :: ms) = tasks_completed m + tasksCompleted ms.
Proof.
  unfold tasksCompleted. simpl. generalize (tasks_completed m).
  induction ms as [|m' ms IH] using rev_ind; intros k; simpl; [lia|].
  rewrite !foldl_app. simpl. rewrite IH. lia.
Qed.

(** X19: when the loaded members have distinct ids, the header's "Tasks
    Completed" is the number of tasks with status "done" that are
    assigned to one of the members: no task is counted twice and no
    unassigned task is counted. *)
Theorem tasksCompleted_counts_done_tasks_of_members
    (tasks : list TaskItem) (rows : list MemberRow) (ms : list TeamMember) :
  mapM (memberWithStats tasks) rows = Some ms →
  NoDup (id <$> ms) →
  tasksCompleted ms
    = length (List.filter
                (λ t, has_status "done" t &&
                      existsb (λ m, assigned_to (id m) t) ms) tasks).
Proof.
  intros Hload. apply mapM_Some in Hload.
  induction Hload as [|row m rows ms Hm _ IH]; intros Hdup.
  - unfold tasksCompleted. simpl. induction tasks as [|t tasks IHt]; simpl;
      [done|]. by rewrite andb_false_r.
  - simpl in Hdup. apply NoDup_cons in Hdup as [Hnotin Hdup].
    rewrite tasksCompleted_cons, (IH Hdup).
    destruct (memberWithStats_counts _ _ _ Hm) as (-> & _ & _).
    simpl. symmetry. apply filter_split_length.
    intros t Ha Hb. apply existsb_exists in Hb as (m' & Hin & Hm').
    unfold assigned_to in *.
    apply bool_decide_eq_true in Ha, Hm'.
    apply Hnotin. apply list_elem_of_fmap. exists m'.
    split; [congruence|]. by apply list_elem_of_In.
Qed.

Lemma tasksCompleted_counts_done_tasks_of_members_witness :
  tasksCompleted
    [ {| id := "u1"; name := "Alice"; email := "a@x.com"; role := "owner";
         avatar_url := None; last_active := "2 hours ago";
         tasks_completed := 1; tasks_in_progress := 0 |} ]
  = length (List.filter
      (λ t, has_status "done" t &&
            existsb (λ m, assigned_to (id m) t)
              [ {| id := "u1"; name := "Alice"; email := "a@x.com";
                   role := "owner"; avatar_url := None;
                   last_active := "2 hours ago";
                   tasks_completed := 1; tasks_in_progress := 0 |} ])
      [ {| assignee_id := Some "u1"; status := "done" |};
        {| assignee_id := None; status := "done" |} ]).
Proof.
  apply (tasksCompleted_counts_done_tasks_of_members
           [ {| assignee_id := Some "u1"; status := "done" |};
             {| assignee_id := None; status := "done" |} ]
           [ {| row_role := "owner";
                row_user := Some {| joined_id := "u1"; joined_name := "Alice";
                                    joined_email := "a@x.com";
                                    joined_avatar_url := None |} |} ]).
  - reflexivity.
  - simpl. apply NoDup_singleton.
Defined.

(** X20: for every member list that [fetchTeamData] loads, the header's
    "Active Today" equals "Total Members": each loaded member's
    [last_active] is the fixed text "2 hours ago". *)
Theorem activeToday_is_totalMembers
    (tasks : list TaskItem) (rows : list MemberRow) (ms : list TeamMember) :
  mapM (memberWithStats tasks) rows = Some ms →
  activeToday ms = totalMembers ms ∧ totalMembers ms = length rows.
Proof.
  intros Hload. split; [|symmetry; by eapply length_mapM].
  apply mapM_Some in Hload. unfold activeToday, totalMembers.
  induction Hload as [|row m rows ms Hm _ IH]; simpl; [done|].
  destruct (memberWithStats_counts _ _ _ Hm) as (_ & _ & ->).
  simpl. by rewrite IH.
Qed.

Lemma activeToday_is_totalMembers_witness :
  activeToday
    [ {| id := "u1"; name := "Alice"; email := "a@x.com"; role := "owner";
         avatar_url := None; last_active := "2 hours ago";
         tasks_completed := 0; tasks_in_progress := 0 |} ]
    = totalMembers
        [ {| id := "u1"; name := "Alice"; email := "a@x.com";
             role := "owner"; avatar_url := None;
             last_active := "2 hours ago";
             tasks_completed := 0; tasks_in_progress := 0 |} ] ∧
  totalMembers
    [ {| id := "u1"; name := "Alice"; email := "a@x.com"; role := "owner";
         avatar_url := None; last_active := "2 hours ago";
         tasks_completed := 0; tasks_in_progress := 0 |} ]
    = length
        [ {| row_role := "owner";
             row_user := Some {| joined_id := "u1"; joined_name := "Alice";
                                 joined_email := "a@x.com";
                                 joined_avatar_url := None |} |} ].
Proof.
  apply (activeToday_is_totalMembers []). reflexivity.
Defined.
End TeamPageProperties.

(** * Doubles *)

Section NumberProperties.
Import Number.
Local Open Scope Z_scope.

Lemma scaled_pos a b e : 0 < a → 0 < b → 0 < scaled_num a e ∧ 0 < scaled_den b e.
Proof.
  intros Ha Hb. unfold scaled_num, scaled_den.
  destruct (Z.leb_spec 0 e).
  - split; [done|]. apply Z.mul_pos_pos; [done|]. by apply Z.pow_pos_nonneg.
  - split; [|done]. apply Z.mul_pos_pos; [done|]. apply Z.pow_pos_nonneg; lia.
Qed.

(** Going one exponent up halves the scaled quotient. *)
Lemma scaled_succ a b e :
  0 < a → 0 < b →
  scaled_num a e * scaled_den b (e + 1)
    = 2 * (scaled_num a (e + 1) * scaled_den b e).
Proof.
  intros Ha Hb. unfold scaled_num, scaled_den.
  destruct (Z.leb_spec 0 e), (Z.leb_spec 0 (e + 1)); try lia.
  - rewrite Z.pow_add_r by lia. change (2 ^ 1) with 2. ring.
  - assert (e = -1) as -> by lia.
    change (- -1) with 1. change (-1 + 1) with 0.
    change (2 ^ 1) with 2. change (2 ^ 0) with 1. ring.
  - replace (- e) with (- (e + 1) + 1) by lia.
    rewrite Z.pow_add_r by lia. change (2 ^ 1) with 2. ring.
Qed.

Lemma exponent_first a b :
  0 < a → 0 < b →
  let e1 := Z.log2 a - Z.log2 b - 53 in
  2 ^ 52 * scaled_den b e1 < scaled_num a e1 < 2 ^ 54 * scaled_den b e1.
Proof.
  intros Ha Hb e1.
  destruct (Z.log2_spec a Ha) as [Ha1 Ha2], (Z.log2_spec b Hb) as [Hb1 Hb2].
  pose proof (Z.log2_nonneg a) as Hla. pose proof (Z.log2_nonneg b) as Hlb.
  rewrite Z.pow_succ_r in Ha2, Hb2 by done.
  unfold scaled_num, scaled_den. destruct (Z.leb_spec 0 e1) as [He|He].
  - assert (2 ^ Z.log2 a = 2 ^ Z.log2 b * 2 ^ 53 * 2 ^ e1) as HA.
    { rewrite <- !Z.pow_add_r by lia. f_equal. lia. }
    assert (0 < 2 ^ e1) as HE by (by apply Z.pow_pos_nonneg).
    assert (0 < 2 ^ Z.log2 b) as HB by (by apply Z.pow_pos_nonneg).
    revert HA HE HB Ha1 Ha2 Hb1 Hb2.
    generalize (2 ^ Z.log2 a), (2 ^ Z.log2 b), (2 ^ e1).
    intros A B E. change (2 ^ 52) with 4503599627370496.
    change (2 ^ 53) with 9007199254740992. change (2 ^ 54) with 18014398509481984.
    intros. nia.
  - assert (2 ^ Z.log2 a * 2 ^ (- e1) = 2 ^ Z.log2 b * 2 ^ 53) as HA.
    { rewrite <- !Z.pow_add_r by lia. f_equal. lia. }
    assert (0 < 2 ^ (- e1)) as HE by (apply Z.pow_pos_nonneg; lia).
    assert (0 < 2 ^ Z.log2 b) as HB by (by apply Z.pow_pos_nonneg).
    revert HA HE HB Ha1 Ha2 Hb1 Hb2.
    generalize (2 ^ Z.log2 a), (2 ^ Z.log2 b), (2 ^ (- e1)).
    intros A B E. change (2 ^ 52) with 4503599627370496.
    change (2 ^ 53) with 9007199254740992. change (2 ^ 54) with 18014398509481984.
    intros. nia.
Qed.

(** The exponent normalises the quotient into [2^52, 2^53). *)
Lemma exponent_of_spec a b :
  0 < a → 0 < b →
  2 ^ 52 * scaled_den b (exponent_of a b) ≤ scaled_num a (exponent_of a b)
  ∧ scaled_num a (exponent_of a b) < 2 ^ 53 * scaled_den b (exponent_of a b).
Proof.
  intros Ha Hb. unfold exponent_of.
  pose proof (exponent_first a b Ha Hb) as H1. simpl in H1.
  set (e1 := Z.log2 a - Z.log2 b - 53) in *.
  pose proof (scaled_succ a b e1 Ha Hb) as Hs.
  destruct (scaled_pos a b e1 Ha Hb), (scaled_pos a b (e1 + 1) Ha Hb).
  revert H1 Hs. change (2 ^ 52) with 4503599627370496.
  change (2 ^ 53) with 9007199254740992. change (2 ^ 54) with 18014398509481984.
  destruct (Z.leb_spec (9007199254740992 * scaled_den b e1) (scaled_num a e1));
    intros; nia.
Qed.

Lemma nearest_even_cases n d :
  0 < d →
  nearest_even n d = n `div` d ∨
  (nearest_even n d = n `div` d + 1 ∧ d ≤ 2 * (n `mod` d)).
Proof.
  intros Hd. unfold nearest_even.
  destruct (Z.ltb_spec (2 * (n `mod` d)) d); [by left|].
  destruct (Z.ltb_spec d (2 * (n `mod` d))); [right; split; [done|lia]|].
  destruct (Z.even _); [by left|right; split; [done|lia]].
Qed.

(** [Math.floor(a / b)] is the integer quotient when [a] is small enough
    for the rounding of the division not to reach the next integer: [a]
    and [b] are multiples of [δ] and [a < 2^53 δ]. *)
Lemma floor_divide_exact a b δ :
  0 ≤ a → 0 < b → 0 < δ → (δ | a) → (δ | b) → a < 2 ^ 53 * δ →
  Math_floor (divide a b) = a `div` b.
Proof.
  intros Ha Hb Hδ [ca Hca] [cb Hcb] Hsmall.
  unfold divide. destruct (Z.ltb_spec a 0); [lia|].
  unfold round_quotient. destruct (Z.eqb_spec a 0) as [->|Hne].
  { simpl. by rewrite Z.div_0_l by lia. }
  assert (0 < a) as Hpos by lia.
  destruct (exponent_of_spec a b Hpos Hb) as [Hlo Hhi].
  set (e := exponent_of a b) in *.
  destruct (scaled_pos a b e Hpos Hb) as [Hn Hd].
  destruct (nearest_even_cases (scaled_num a e) (scaled_den b e) Hd) as [Hm|[Hm Hr]];
    rewrite Hm; clear Hm.
  all: pose proof (Z.div_mod (scaled_num a e) (scaled_den b e) ltac:(lia)) as Hdm.
  all: pose proof (Z.mod_pos_bound (scaled_num a e) (scaled_den b e) Hd) as Hrb.
  all: pose proof (Z.div_mod a b ltac:(lia)) as Hab.
  all: pose proof (Z.mod_pos_bound a b Hb) as Habr.
  all: assert (a + δ ≤ b * (a `div` b + 1)) as Hgap.
  all: try (revert Hab Habr; generalize (a `div` b), (a `mod` b);
            intros q r Hab Habr;
            assert (b - r = δ * (cb - ca + cb * q)) as Hbr by lia;
            assert (0 < cb - ca + cb * q) by nia; nia).
  all: revert Hlo Hhi Hn Hd Hdm Hrb; try revert Hr.
  all: unfold Math_floor, scaled_num, scaled_den.
  all: change (2 ^ 52) with 4503599627370496 in *.
  all: change (2 ^ 53) with 9007199254740992 in *.
  all: destruct (Z.leb_spec 0 e) as [He|He].
  - (* e ≥ 0, rounded down *)
    assert (0 < 2 ^ e) as HE by (by apply Z.pow_pos_nonneg).
    revert HE. generalize (2 ^ e). intros E HE.
    generalize (a `div` (b * E)), (a `mod` (b * E)). intros m0 r. intros.
    assert (E = 1) as -> by nia. rewrite Z.mul_1_r in *.
    apply (Z.div_unique a b m0 r); lia.
  - (* e < 0, rounded down *)
    assert (0 < 2 ^ (- e)) as HE by (apply Z.pow_pos_nonneg; lia).
    revert HE. generalize (2 ^ (- e)). intros S HS.
    generalize ((a * S) `div` b), ((a * S) `mod` b). intros m0 r. intros.
    revert Hab Habr Hgap. generalize (a `div` b), (a `mod` b).
    intros k rem Hab Habr Hgap.
    symmetry. apply (Z.div_unique m0 S k (m0 - S * k)); [left; nia|lia].
  - (* e ≥ 0, rounded up *)
    assert (0 < 2 ^ e) as HE by (by apply Z.pow_pos_nonneg).
    revert HE. generalize (2 ^ e). intros E HE.
    generalize (a `div` (b * E)), (a `mod` (b * E)). intros m0 r. intros.
    assert (E = 1) as -> by nia. rewrite Z.mul_1_r in *.
    revert Hab Habr Hgap. generalize (a `div` b), (a `mod` b).
    intros k rem Hab Habr Hgap. nia.
  - (* e < 0, rounded up *)
    assert (0 < 2 ^ (- e)) as HE by (apply Z.pow_pos_nonneg; lia).
    revert HE. generalize (2 ^ (- e)). intros S HS.
    generalize ((a * S) `div` b), ((a * S) `mod` b). intros m0 r. intros.
    revert Hab Habr Hgap. generalize (a `div` b), (a `mod` b).
    intros k rem Hab Habr Hgap.
    symmetry. apply (Z.div_unique (m0 + 1) S k (m0 + 1 - S * k));
      [left; nia|lia].
Qed.

Lemma nearest_even_pos n d : 0 < d → d ≤ n → 0 < nearest_even n d.
Proof.
  intros Hd Hn.
  assert (1 ≤ n `div` d) by (apply Z.div_le_lower_bound; lia).
  destruct (nearest_even_cases n d Hd) as [->|[-> _]]; lia.
Qed.

(** A negative dividend gives a negative floor. *)
Lemma floor_divide_negative x b : x < 0 → 0 < b → Math_floor (divide x b) < 0.
Proof.
  intros Hx Hb. unfold divide. destruct (Z.ltb_spec x 0); [|lia].
  unfold round_quotient. destruct (Z.eqb_spec (- x) 0); [lia|].
  assert (0 < - x) as Hpos by lia.
  destruct (exponent_of_spec (- x) b Hpos Hb) as [Hlo _].
  set (e := exponent_of (- x) b) in *.
  destruct (scaled_pos (- x) b e Hpos Hb) as [Hn Hd].
  assert (0 < nearest_even (scaled_num (- x) e) (scaled_den b e)) as Hm.
  { apply nearest_even_pos; [done|]. change (2 ^ 52) with 4503599627370496 in Hlo. lia. }
  revert Hm. generalize (nearest_even (scaled_num (- x) e) (scaled_den b e)).
  intros m Hm. unfold Math_floor. destruct (Z.leb_spec 0 e).
  - assert (0 < 2 ^ e) by (by apply Z.pow_pos_nonneg). nia.
  - apply Z.div_lt_upper_bound; [apply Z.pow_pos_nonneg; lia|lia].
Qed.

(** Subtraction of integers that doubles hold is exact below [2^53]. *)
Lemma subtract_exact x y : 0 ≤ x - y < 2 ^ 53 → subtract x y = x - y.
Proof.
  intros H. unfold subtract.
  rewrite (floor_divide_exact (x - y) 1 1); try lia.
  - apply Z.div_1_r.
  - apply Z.divide_1_l.
  - apply Z.divide_1_l.
Qed.

(** Above, it rounds to an even integer next to the difference. *)
Lemma subtract_rounds x y :
  2 ^ 53 ≤ x - y < 2 ^ 54 →
  ∃ m, subtract x y = 2 * m ∧ x - y - 1 ≤ 2 * m ≤ x - y + 1.
Proof.
  intros [Hlo Hhi]. unfold subtract, divide. set (a := x - y) in *.
  change (2 ^ 53) with 9007199254740992 in Hlo.
  change (2 ^ 54) with 18014398509481984 in Hhi.
  destruct (Z.ltb_spec a 0); [lia|].
  unfold round_quotient. destruct (Z.eqb_spec a 0); [lia|].
  assert (0 < a) as Hpos by lia.
  destruct (exponent_of_spec a 1 Hpos ltac:(lia)) as [Hn1 Hn2].
  set (e := exponent_of a 1) in *.
  assert (e = 1) as He.
  { revert Hn1 Hn2. unfold scaled_num, scaled_den.
    change (2 ^ 52) with 4503599627370496. change (2 ^ 53) with 9007199254740992.
    destruct (Z.leb_spec 0 e) as [He|He].
    - destruct (decide (e = 0)) as [->|]; [simpl; lia|].
      destruct (decide (e = 1)) as [->|]; [done|].
      assert (2 ^ 2 ≤ 2 ^ e) by (apply Z.pow_le_mono_r; lia).
      change (2 ^ 2) with 4 in *. lia.
    - assert (0 < 2 ^ (- e)) by (apply Z.pow_pos_nonneg; lia). nia. }
  rewrite He. change (scaled_num a 1) with a.
  change (scaled_den 1 1) with 2.
  change (Math_floor (nearest_even a 2, 1)) with (nearest_even a 2 * 2).
  pose proof (Z.div_mod a 2 ltac:(lia)).
  pose proof (Z.mod_pos_bound a 2 ltac:(lia)).
  destruct (nearest_even_cases a 2 ltac:(lia)) as [->|[-> Hr]].
  - exists (a `div` 2). lia.
  - exists (a `div` 2 + 1). lia.
Qed.
End NumberProperties.

Section TeamPageDisplay.
Import TeamPage.
Import Number.

(** ** Searching the members *)

(** X21: an empty search query lists every member, and the search ignores
    the case of the query: a query and its lower-cased form select the
    same members.  [toLowerCase] is any function that maps the empty
    string to itself and changes nothing on its own results. *)
Theorem search_ignores_case_and_empty_query_lists_all
    (toLowerCase : string → string)
    (members : list TeamMember) (query : string) :
  toLowerCase "" = "" →
  (∀ s, toLowerCase (toLowerCase s) = toLowerCase s) →
  filteredMembers toLowerCase members "" = members ∧
  filteredMembers toLowerCase members (toLowerCase query)
    = filteredMembers toLowerCase members query.
Proof.
  intros Hempty Hidem. unfold filteredMembers. split.
  - rewrite Hempty. induction members as [|m ms IH]; simpl; [done|].
    rewrite includes_empty. simpl. by rewrite IH.
  - by rewrite Hidem.
Qed.

Lemma ascii_lower_idemp c : ascii_lower (ascii_lower c) = ascii_lower c.
Proof. by destruct c as [[] [] [] [] [] [] [] []]. Qed.

Lemma lower_idemp s : lower (lower s) = lower s.
Proof.
  induction s as [|c s IH]; simpl; [done|].
  by rewrite ascii_lower_idemp, IH.
Qed.

Lemma search_ignores_case_and_empty_query_lists_all_witness :
  filteredMembers lower
    [ {| id := "u1"; name := "Alice"; email := "a@x.com"; role := "owner";
         avatar_url := None; last_active := "2 hours ago";
         tasks_completed := 0; tasks_in_progress := 0 |} ] ""
  = [ {| id := "u1"; name := "Alice"; email := "a@x.com"; role := "owner";
         avatar_url := None; last_active := "2 hours ago";
         tasks_completed := 0; tasks_in_progress := 0 |} ] ∧
  filteredMembers lower
    [ {| id := "u1"; name := "Alice"; email := "a@x.com"; role := "owner";
         avatar_url := None; last_active := "2 hours ago";
         tasks_completed := 0; tasks_in_progress := 0 |} ] (lower "ALI")
  = filteredMembers lower
    [ {| id := "u1"; name := "Alice"; email := "a@x.com"; role := "owner";
         avatar_url := None; last_active := "2 hours ago";
         tasks_completed := 0; tasks_in_progress := 0 |} ] "ALI".
Proof.
  apply (search_ignores_case_and_empty_query_lists_all lower).
  - reflexivity.
  - apply lower_idemp.
Defined.

(** ** Activity types and times *)

(** X22: an activity is typed "completed" whenever its action contains
    that word, whatever else it contains, and it is typed "updated"
    exactly when its action contains none of "completed", "created" and
    "commented". *)
Theorem activityType_by_words (action : string) :
  ((∃ before rest, action = before +:+ "completed" +:+ rest) →
     activityType action = "completed") ∧
  (activityType action = "updated" ↔
     ¬ (∃ before rest, action = before +:+ "completed" +:+ rest) ∧
     ¬ (∃ before rest, action = before +:+ "created" +:+ rest) ∧
     ¬ (∃ before rest, action = before +:+ "commented" +:+ rest)).
Proof.
  unfold activityType. rewrite <- !includes_spec.
  destruct (includes "completed" action); [by intuition|].
  destruct (includes "created" action); [by intuition|].
  destruct (includes "commented" action); by intuition.
Qed.

Local Open Scope Z_scope.

Lemma timeClip_Some t v : timeClip t = Some v → v = t ∧ Z.abs t ≤ 8640000000000000.
Proof.
  unfold timeClip. destruct (Z.leb_spec (Z.abs t) 8640000000000000); [|done].
  by intros [= <-].
Qed.

Lemma diffInMinutes_spec now d :
  timeClip now = Some now → timeClip d = Some d →
  ∃ diff,
    diffInMinutes now (Some d) = Some diff ∧
    (now - d < 60000 → diff < 1) ∧
    (60000 ≤ now - d → 1 ≤ diff < 2 ^ 53) ∧
    (0 ≤ now - d < 2 ^ 53 → diff = (now - d) `div` 60000).
Proof.
  intros Hnow Hd. unfold diffInMinutes. simpl. rewrite Hnow, Hd. simpl.
  apply timeClip_Some in Hnow as [_ Hnow], Hd as [_ Hd].
  change (1000 * 60) with 60000. eexists. split; [done|].
  change (2 ^ 53) with 9007199254740992.
  destruct (Z.lt_ge_cases (now - d) 0) as [Hneg|Hpos].
  { assert (subtract now d < 0) as Hs
      by (apply floor_divide_negative; lia).
    pose proof (floor_divide_negative _ 60000 Hs ltac:(lia)). lia. }
  destruct (Z.lt_ge_cases (now - d) (2 ^ 53)) as [Hsmall|Hlarge].
  - rewrite subtract_exact by lia.
    rewrite (floor_divide_exact (now - d) 60000 1); try lia;
      try apply Z.divide_1_l.
    change (2 ^ 53) with 9007199254740992 in Hsmall.
    split; [|split; [|done]].
    + intros. apply Z.div_lt_upper_bound; lia.
    + intros. split; [apply Z.div_le_lower_bound; lia|].
      apply Z.div_lt_upper_bound; lia.
  - destruct (subtract_rounds now d) as (m & -> & Hm1 & Hm2).
    { change (2 ^ 54) with 18014398509481984. lia. }
    change (2 ^ 53) with 9007199254740992 in Hlarge.
    rewrite (floor_divide_exact (2 * m) 60000 2); try lia.
    + split; [lia|]. split; [|lia]. intros.
      split; [apply Z.div_le_lower_bound; lia|].
      apply Z.div_lt_upper_bound; lia.
    + by exists m; lia.
    + by exists 30000.
Qed.

(** X23: [formatTimeAgo] shows "NaN day ago" when the date string does not
    parse.  For valid dates it shows "Just now" when the date is less than
    a minute ago or in the future; otherwise it shows a count of at least
    1: minutes below 60, hours below 24 or days, and "hour" and "day" take
    an "s" exactly when the count is not 1.  The minutes are the integer
    quotient of the milliseconds between the dates by 60000 whenever the
    dates are less than [2^53] milliseconds apart. *)
Theorem formatTimeAgo_counts (now : Z) (date : option Z) :
  (diffInMinutes now date = None →
     formatTimeAgo now date = "NaN day ago") ∧
  (date = None → diffInMinutes now date = None) ∧
  (∀ d, date = Some d → timeClip now = Some now → timeClip d = Some d →
     (now - d < 60000 → formatTimeAgo now date = "Just now") ∧
     (60000 ≤ now - d →
        ∃ diff,
          diffInMinutes now date = Some diff ∧ 1 ≤ diff ∧
          (now - d < 2 ^ 53 → diff = (now - d) `div` 60000) ∧
          ((∃ n, 1 ≤ n < 60 ∧ n = diff ∧
                 formatTimeAgo now date = pretty n +:+ " min ago") ∨
           (∃ n, 1 ≤ n < 24 ∧ n = diff `div` 60 ∧
                 formatTimeAgo now date
                   = pretty n +:+ " hour" +:+ plural n +:+ " ago") ∨
           (∃ n, 1 ≤ n ∧ n = diff `div` 1440 ∧
                 formatTimeAgo now date
                   = pretty n +:+ " day" +:+ plural n +:+ " ago")))).
Proof.
  split; [|split].
  - intros H. unfold formatTimeAgo. by rewrite H.
  - intros ->. unfold diffInMinutes. by destruct (timeClip now).
  - intros d -> Hnow Hd.
    destruct (diffInMinutes_spec now d Hnow Hd) as (diff & Hdiff & H1 & H2 & H3).
    unfold formatTimeAgo. rewrite Hdiff. simpl. split.
    + intros Hlt. specialize (H1 Hlt). by destruct (Z.ltb_spec diff 1); [|lia].
    + intros Hge. destruct (H2 Hge) as [Hlo Hhi]. exists diff.
      split; [done|]. split; [done|]. split; [intros; apply H3; lia|].
      destruct (Z.ltb_spec diff 1); [lia|].
      destruct (Z.ltb_spec diff 60).
      { left. exists diff. by repeat split; try lia. }
      assert (∀ b, 0 < b → Math_floor (divide diff b) = diff `div` b) as Hq.
      { intros b Hb. apply (floor_divide_exact diff b 1); try lia;
          apply Z.divide_1_l. }
      rewrite !Hq by lia.
      destruct (Z.ltb_spec diff 1440).
      * right. left. exists (diff `div` 60).
        assert (1 ≤ diff `div` 60 < 24) as Hn.
        { split; [apply Z.div_le_lower_bound; lia
                 |apply Z.div_lt_upper_bound; lia]. }
        split; [done|]. split; [done|]. unfold plural.
        destruct (Z.gtb_spec (diff `div` 60) 1), (decide _); try lia; done.
      * right. right. exists (diff `div` 1440).
        assert (1 ≤ diff `div` 1440) as Hn
          by (apply Z.div_le_lower_bound; lia).
        split; [done|]. split; [done|]. unfold plural.
        destruct (Z.gtb_spec (diff `div` 1440) 1), (decide _); try lia; done.
Qed.

Lemma formatTimeAgo_counts_witness :
  formatTimeAgo 1750000000000 None = "NaN day ago" ∧
  ∃ diff,
    diffInMinutes 1750007200000 (Some 1750000000000) = Some diff ∧ 1 ≤ diff ∧
    (1750007200000 - 1750000000000 < 2 ^ 53 →
       diff = (1750007200000 - 1750000000000) `div` 60000) ∧
    ((∃ n, 1 ≤ n < 60 ∧ n = diff ∧
           formatTimeAgo 1750007200000 (Some 1750000000000)
             = pretty n +:+ " min ago") ∨
     (∃ n, 1 ≤ n < 24 ∧ n = diff `div` 60 ∧
           formatTimeAgo 1750007200000 (Some 1750000000000)
             = pretty n +:+ " hour" +:+ plural n +:+ " ago") ∨
     (∃ n, 1 ≤ n ∧ n = diff `div` 1440 ∧
           formatTimeAgo 1750007200000 (Some 1750000000000)
             = pretty n +:+ " day" +:+ plural n +:+ " ago")).
Proof.
  split.
  - apply (proj1 (formatTimeAgo_counts 1750000000000 None)). reflexivity.
  - apply (proj2 (proj2 (proj2
             (formatTimeAgo_counts 1750007200000 (Some 1750000000000)))
             1750000000000 eq_refl eq_refl eq_refl)).
    lia.
Defined.

(** Sample outputs: an unparsable date, a date in the future, one and two
    hours, and two dates so far apart that the subtraction rounds. *)
Example formatTimeAgo_samples :
  formatTimeAgo 1750000000000 None = "NaN day ago" ∧
  formatTimeAgo 1750000000000 (Some 1750003600000) = "Just now" ∧
  formatTimeAgo 1750003600000 (Some 1750000000000) = "1 hour ago" ∧
  formatTimeAgo 1750007200000 (Some 1750000000000) = "2 hours ago" ∧
  formatTimeAgo 1750000060000 (Some 1750000000000) = "1 min ago" ∧
  formatTimeAgo 8640000000000000 (Some (-8639999999999999))
    = "200000000 days ago".
Proof. vm_compute. by repeat split. Qed.
End TeamPageDisplay.
